(** * ib_async: the order ledger of [functionality/orders.py]

    A shallow embedding of [OrdersMixin]: the order map, the map of pending
    placement futures, the id counter and the handlers of the order-status,
    open-order, next-valid-id and error pushes.  Python objects live in
    explicit heaps so that aliasing (the order held by the map, by the
    caller and by a resolved future is one object) is visible. *)

From Stdlib Require Import ZArith String List Lia.
From Stdlib Require Import Floats.PrimFloat.
From stdpp Require Import base option gmap list strings.

Set Warnings "-inexact-float".
Open Scope Z_scope.
Open Scope string_scope.

(** ** Python values *)

(** Heap addresses of objects (orders, instruments) and of futures. *)
Abbreviation loc := nat (only parsing).

Inductive pyval : Type :=
| VNone
| VBool (b : bool)
| VInt (z : Z)
| VFloat (f : PrimFloat.float)
| VStr (s : string)
| VEnum (cls member : string)          (* Action.Buy, OrderType.Limit, ... *)
| VDict (d : list (string * string))
| VRef (l : loc).                      (* reference to a heap object *)

(** Python's truth value testing ([if x:], [not x]). *)
Definition truthy (v : pyval) : bool :=
  match v with
  | VNone => false
  | VBool b => b
  | VInt z => negb (Z.eqb z 0)
  | VFloat f => negb (PrimFloat.eqb f 0%float)
  | VStr s => negb (String.eqb s EmptyString)
  | VEnum _ _ => true
  | VDict d => match d with [] => false | _ => true end
  | VRef _ => true
  end.

(** [x == "literal"] against a string literal. *)
Definition eq_str (v : pyval) (lit : string) : bool :=
  match v with
  | VStr s => String.eqb s lit
  | _ => false
  end.

(** [quantity > 0] and [abs(quantity)] on Python numbers. *)
Definition gt_zero (v : pyval) : bool :=
  match v with
  | VInt z => Z.ltb 0 z
  | VFloat f => PrimFloat.ltb 0%float f
  | VBool b => b
  | _ => false
  end.

Definition py_abs (v : pyval) : pyval :=
  match v with
  | VInt z => VInt (Z.abs z)
  | VFloat f => VFloat (PrimFloat.abs f)
  | VBool b => VInt (if b then 1 else 0)
  | _ => v
  end.

(** The dictionary key an [order_id] attribute denotes.  The attribute is
    annotated [int]; values of other types are outside the annotation. *)
Definition as_key (v : pyval) : option Z :=
  match v with
  | VInt z => Some z
  | VBool b => Some (if b then 1 else 0)
  | _ => None
  end.

(** Enum members of [ib_async.order] used by the mixin. *)
Definition Action_Buy : pyval := VEnum "Action" "Buy".
Definition Action_Sell : pyval := VEnum "Action" "Sell".
Definition OrderType_Market : pyval := VEnum "OrderType" "Market".
Definition OrderType_Limit : pyval := VEnum "OrderType" "Limit".
Definition TimeInForce_GoodTillCancel : pyval := VEnum "TimeInForce" "GoodTillCancel".

(** ** Exceptions and futures *)

Inductive exn : Type :=
| UnsupportedFeature (feature : string)
| ApiException (error_code : Z) (error_message : string)
| OutdatedServerError
| DecodeError            (* read past the end, or a token that does not parse *)
| InvalidStateError      (* asyncio: set_result / set_exception on a done future *)
| KeyError
| TypeError
| AttributeError.

(** What a future is resolved with: an order object, or the live
    [dict.values()] view of the order map. *)
Inductive fut_result : Type :=
| ROrder (o : loc)
| ROrdersView.

Inductive future : Type :=
| Pending
| Result (r : fut_result)
| Failed (e : exn).

(** ** Outgoing messages *)

Inductive Outgoing : Type :=
| PLACE_ORDER
| REQ_ALL_OPEN_ORDERS
| REQ_MKT_DATA
| CANCEL_MKT_DATA
| REQ_MARKET_DATA_TYPE.

Record out_msg : Type := OutMsg {
  msg_kind : Outgoing;
  msg_fields : list pyval
}.

(** ** The session state of [OrdersMixin] *)

Record session : Type := Session {
  objs : list (gmap string pyval);   (* heap: attribute dictionaries of objects *)
  futs : list future;                (* heap: asyncio.Future objects *)
  orders : gmap Z loc;               (* self.__orders *)
  next_order_id : Z;                 (* self._next_order_id *)
  submitted_future : gmap Z loc;     (* self.__submitted_future *)
  open_orders_future : option loc;   (* self.__open_orders_future *)
  sent : list out_msg;               (* messages handed to send_message *)
  updated_log : list loc;            (* order.updated(None) firings *)
  session_errors : list (Z * Z * string)  (* super()._handle_err_msg calls *)
}.

(** [OrdersMixin.__init__] *)
Definition init_session : session :=
  {| objs := []; futs := []; orders := ∅; next_order_id := 1;
     submitted_future := ∅; open_orders_future := None;
     sent := []; updated_log := []; session_errors := [] |}.

Definition set_objs (h : list (gmap string pyval)) (s : session) : session :=
  {| objs := h; futs := futs s; orders := orders s;
     next_order_id := next_order_id s; submitted_future := submitted_future s;
     open_orders_future := open_orders_future s; sent := sent s;
     updated_log := updated_log s; session_errors := session_errors s |}.

Definition set_futs (h : list future) (s : session) : session :=
  {| objs := objs s; futs := h; orders := orders s;
     next_order_id := next_order_id s; submitted_future := submitted_future s;
     open_orders_future := open_orders_future s; sent := sent s;
     updated_log := updated_log s; session_errors := session_errors s |}.

Definition set_orders (m : gmap Z loc) (s : session) : session :=
  {| objs := objs s; futs := futs s; orders := m;
     next_order_id := next_order_id s; submitted_future := submitted_future s;
     open_orders_future := open_orders_future s; sent := sent s;
     updated_log := updated_log s; session_errors := session_errors s |}.

Definition set_next_order_id (n : Z) (s : session) : session :=
  {| objs := objs s; futs := futs s; orders := orders s;
     next_order_id := n; submitted_future := submitted_future s;
     open_orders_future := open_orders_future s; sent := sent s;
     updated_log := updated_log s; session_errors := session_errors s |}.

Definition set_submitted_future (m : gmap Z loc) (s : session) : session :=
  {| objs := objs s; futs := futs s; orders := orders s;
     next_order_id := next_order_id s; submitted_future := m;
     open_orders_future := open_orders_future s; sent := sent s;
     updated_log := updated_log s; session_errors := session_errors s |}.

Definition set_open_orders_future (f : option loc) (s : session) : session :=
  {| objs := objs s; futs := futs s; orders := orders s;
     next_order_id := next_order_id s; submitted_future := submitted_future s;
     open_orders_future := f; sent := sent s;
     updated_log := updated_log s; session_errors := session_errors s |}.

Definition set_sent (l : list out_msg) (s : session) : session :=
  {| objs := objs s; futs := futs s; orders := orders s;
     next_order_id := next_order_id s; submitted_future := submitted_future s;
     open_orders_future := open_orders_future s; sent := l;
     updated_log := updated_log s; session_errors := session_errors s |}.

Definition set_updated_log (l : list loc) (s : session) : session :=
  {| objs := objs s; futs := futs s; orders := orders s;
     next_order_id := next_order_id s; submitted_future := submitted_future s;
     open_orders_future := open_orders_future s; sent := sent s;
     updated_log := l; session_errors := session_errors s |}.

Definition set_session_errors (l : list (Z * Z * string)) (s : session) : session :=
  {| objs := objs s; futs := futs s; orders := orders s;
     next_order_id := next_order_id s; submitted_future := submitted_future s;
     open_orders_future := open_orders_future s; sent := sent s;
     updated_log := updated_log s; session_errors := l |}.

(** ** Objects and attributes *)

(** [obj.name]; an attribute the object does not hold reads as [None]. *)
Definition getattr (o : loc) (name : string) (s : session) : pyval :=
  match objs s !! o with
  | Some d => default VNone (d !! name)
  | None => VNone
  end.

(** [obj.name = v], in place. *)
Definition setattr (o : loc) (name : string) (v : pyval) (s : session) : session :=
  match objs s !! o with
  | Some d => set_objs (<[o := <[name := v]> d]> (objs s)) s
  | None => s
  end.

(** Allocation of a new object with the given attribute dictionary. *)
Definition new_object (d : gmap string pyval) (s : session) : loc * session :=
  (length (objs s), set_objs (objs s ++ [d]) s).

(** [asyncio.Future()] *)
Definition new_future (s : session) : loc * session :=
  (length (futs s), set_futs (futs s ++ [Pending]) s).

(** [fut.set_result(r)]: raises InvalidStateError on a future that is done. *)
Definition set_result (f : loc) (r : fut_result) (s : session) : (exn + unit) * session :=
  match futs s !! f with
  | Some Pending => (inr tt, set_futs (<[f := Result r]> (futs s)) s)
  | _ => (inl InvalidStateError, s)
  end.

(** [fut.set_exception(e)] *)
Definition set_exception (f : loc) (e : exn) (s : session) : (exn + unit) * session :=
  match futs s !! f with
  | Some Pending => (inr tt, set_futs (<[f := Failed e]> (futs s)) s)
  | _ => (inl InvalidStateError, s)
  end.

(** [order.updated(None)]: the "order updated" notification. *)
Definition fire_updated (o : loc) (s : session) : session :=
  set_updated_log (updated_log s ++ [o]) s.

(** [self.send_message(kind, *fields)] of the transport that records what it
    is handed. *)
Definition send_message (m : out_msg) (s : session) : session :=
  set_sent (sent s ++ [m]) s.

(** ** Session operations *)

(** [get_order] *)
Definition get_order (order_id : Z) (s : session) : option loc :=
  orders s !! order_id.

(** [get_open_orders] *)
Definition get_open_orders (s : session) : loc * session :=
  let '(f, s1) :=
    match open_orders_future s with
    | Some f => (f, s)
    | None => let '(f, s') := new_future s in (f, set_open_orders_future (Some f) s')
    end in
  (f, send_message (OutMsg REQ_ALL_OPEN_ORDERS [VInt 1]) s1).

(** [_handle_open_order_end] *)
Definition _handle_open_order_end (s : session) : (exn + unit) * session :=
  match open_orders_future s with
  | Some f =>
      match set_result f ROrdersView s with
      | (inr _, s1) => (inr tt, set_open_orders_future None s1)
      | (inl e, s1) => (inl e, s1)
      end
  | None => (inr tt, s)
  end.

(** Lines 93-94 of [place_order]:
    [if not order.order_id: order.order_id = self._next_order_id] *)
Definition assign_order_id (order : loc) (s : session) : session :=
  if negb (truthy (getattr order "order_id" s))
  then setattr order "order_id" (VInt (next_order_id s)) s
  else s.

(** Lines 96-97 of [place_order]:
    [self.__orders[order.order_id] = order
     self.__submitted_future[order.order_id] = asyncio.Future()] *)
Definition register_placement (k : Z) (order : loc) (s : session) : session :=
  let s2 := set_orders (<[k := order]> (orders s)) s in
  let '(f, s3) := new_future s2 in
  set_submitted_future (<[k := f]> (submitted_future s3)) s3.

(** [place_order], over an arbitrary transport [transmit] standing for
    [self.send_message]: the transport receives the session as it is at the
    moment of the call and may do anything with it. *)
Definition place_order_via (transmit : out_msg → session → session)
    (order : loc) (s : session) : (exn + loc) * session :=
  let s1 := assign_order_id order s in
  match as_key (getattr order "order_id" s1) with
  | None => (inl TypeError, s1)
  | Some k =>
      let s4 := register_placement k order s1 in
      let s5 := transmit (OutMsg PLACE_ORDER [VInt 45; VRef order]) s4 in
      match as_key (getattr order "order_id" s5) with
      | None => (inl TypeError, s5)
      | Some k' =>
          match submitted_future s5 !! k' with
          | Some f' => (inr f', s5)
          | None => (inl KeyError, s5)
          end
      end
  end.

Definition place_order (order : loc) (s : session) : (exn + loc) * session :=
  place_order_via send_message order s.

(** The arguments of an order-status push. *)
Record status_push : Type := StatusPush {
  sp_status : pyval;
  sp_filled : pyval;
  sp_remaining : pyval;
  sp_average_fill_price : pyval;
  sp_perm_id : pyval;
  sp_parent_id : pyval;
  sp_last_fill_price : pyval;
  sp_client_id : pyval;
  sp_why_held : pyval;
  sp_market_cap_price : pyval       (* defaults to None *)
}.

(** The attribute assignments of [_handle_order_status], in source order. *)
Definition status_assignments (p : status_push) : list (string * pyval) :=
  [ ("status", sp_status p);
    ("filled", sp_filled p);
    ("remaining", sp_remaining p);
    ("average_fill_price", sp_average_fill_price p);
    ("perm_id", sp_perm_id p);
    ("parent_id", sp_parent_id p);
    ("last_fill_price", sp_last_fill_price p);
    ("client_id", sp_client_id p);
    ("why_held", sp_why_held p);
    ("market_cap_price", sp_market_cap_price p) ].

(** A run of [obj.name = v] statements. *)
Definition setattrs (o : loc) (l : list (string * pyval)) (s : session) : session :=
  fold_left (λ acc nv, setattr o nv.1 nv.2 acc) l s.

(** [submitted_fut = self.__submitted_future.pop(order_id, None)
     if submitted_fut: submitted_fut.set_result(order)] *)
Definition resolve_submitted (order_id : Z) (order : loc) (s : session)
    : (exn + unit) * session :=
  match submitted_future s !! order_id with
  | Some f =>
      set_result f (ROrder order)
        (set_submitted_future (delete order_id (submitted_future s)) s)
  | None => (inr tt, s)
  end.

(** [_handle_order_status].  [order] is an [Order] object or [None]; an
    object is truthy, so [if order:] tests whether the map holds the id. *)
Definition _handle_order_status (order_id : Z) (p : status_push) (s : session)
    : (exn + unit) * session :=
  match orders s !! order_id with
  | Some order =>
      let s1 := setattrs order (status_assignments p) s in
      let s2 := fire_updated order s1 in
      resolve_submitted order_id order s2
  | None => (inr tt, s)
  end.

(** [_handle_next_valid_id] *)
Definition _handle_next_valid_id (next_id : Z) (s : session) : session :=
  set_next_order_id next_id s.

(** [_handle_err_msg]; the generic handler of the superclass records the
    error it is given. *)
Definition _handle_err_msg (request_id error_code : Z) (error_message : string)
    (s : session) : (exn + unit) * session :=
  match submitted_future s !! request_id with
  | Some fut =>
      set_exception fut (ApiException error_code error_message)
        (set_submitted_future (delete request_id (submitted_future s)) s)
  | None =>
      (inr tt,
       set_session_errors
         (session_errors s ++ [(request_id, error_code, error_message)]) s)
  end.

(** ** Collaborators outside [orders.py]

    The [Order] class, the primitive field decoder behind
    [IncomingMessage.read] and the [ProtocolVersion] constants are not part
    of the file; the embedding takes them as an interface. *)

(** Wire types a field can be read as. *)
Inductive ftype : Type :=
| TStr                    (* message.read() and message.read(str) *)
| TInt
| TFloat
| TBool
| TDateTime
| TDictStrStr             (* typing.Dict[str, str] *)
| TDict
| TUnderlyingComponent.

Class Environment : Type := {
  (* the attributes a freshly constructed Order(self) holds *)
  Order_init : gmap string pyval;
  (* the primitive decoder: parse a value of the type off the token stream *)
  decode : ftype → list string → option (pyval * list string);
  (* ProtocolVersion members *)
  MODELS_SUPPORT : Z;
  PEGGED_TO_BENCHMARK : Z;
  SOFT_DOLLAR_TIER : Z;
  CASH_QTY : Z
}.

(** An incoming message: its remaining tokens and the two version axes. *)
Record IncomingMessage : Type := Message {
  fields : list string;
  version : Z;              (* negotiated protocol version *)
  message_version : Z       (* version field at the head of the message *)
}.

(** [wrap_immediate_future(order)]: a future that is already resolved. *)
Definition wrap_immediate_future (order : loc) (s : session) : loc * session :=
  (length (futs s), set_futs (futs s ++ [Result (ROrder order)]) s).

(** ** The error and state monad of the open-order decoder

    A handler that raises half-way leaves behind every mutation it made up
    to that point, so the state is threaded through failures. *)

Definition M (A : Type) : Type :=
  session * IncomingMessage → (exn + A) * (session * IncomingMessage).

Global Instance M_ret : MRet M := λ A a st, (inr a, st).

Global Instance M_bind : MBind M := λ A B k c st,
  match c st with
  | (inr a, st') => k a st'
  | (inl e, st') => (inl e, st')
  end.

Definition raise {A : Type} (e : exn) : M A := λ st, (inl e, st).

(** Run a session operation inside the monad. *)
Definition lift_op {A : Type} (op : session → (exn + A) * session) : M A :=
  λ st, let '(r, s') := op st.1 in (r, (s', st.2)).

Definition get_attr (o : loc) (name : string) : M pyval :=
  λ st, (inr (getattr o name st.1), st).

Definition set_attr (o : loc) (name : string) (v : pyval) : M unit :=
  λ st, (inr tt, (setattr o name v st.1, st.2)).

Definition set_attrs (o : loc) (l : list (string * pyval)) : M unit :=
  λ st, (inr tt, (setattrs o l st.1, st.2)).

Section Orders.
Context {env : Environment}.

(** Modelled from the spec: [IncomingMessage.read] of [ib_async.protocol],
    which is not in the sources.  A field whose version floor exceeds the
    version in effect is absent from the wire: the read yields the default
    of the type and consumes nothing.  Otherwise the next token is consumed
    and parsed; a read past the end or a parse failure is fatal. *)
Definition type_default (ty : ftype) : pyval :=
  match ty with
  | TStr => VStr EmptyString
  | TInt => VInt 0
  | TFloat => VFloat 0%float
  | TBool => VBool false
  | _ => VNone
  end.

Definition gate (floor : option Z) (in_effect : Z) : bool :=
  match floor with
  | Some v => Z.leb v in_effect
  | None => true
  end.

Definition read (ty : ftype) (min_version min_message_version : option Z) : M pyval :=
  λ st,
    let m := st.2 in
    if gate min_version (version m) && gate min_message_version (message_version m)
    then match decode ty (fields m) with
         | Some (v, rest) =>
             (inr v, (st.1, {| fields := rest; version := version m;
                               message_version := message_version m |}))
         | None => (inl DecodeError, st)
         end
    else (inr (type_default ty), st).

(** [order.name = message.read(ty, ...)] *)
Definition read_into (o : loc) (name : string) (ty : ftype)
    (min_version min_message_version : option Z) : M unit :=
  v ← read ty min_version min_message_version; set_attr o name v.

(** [order.instrument.underlying_component = v] *)
Definition set_underlying_component (o : loc) (v : pyval) : M unit :=
  i ← get_attr o "instrument";
  match i with
  | VRef l => set_attr l "underlying_component" v
  | _ => raise AttributeError
  end.

(** [create_market_order] *)
Definition create_market_order
    (instrument quantity : pyval) (action : option pyval)
    (time_in_force : pyval) (place : bool) (s : session) : (exn + loc) * session :=
  let '(order, s0) := new_object Order_init s in
  let s1 := setattr order "instrument" instrument s0 in
  let s2 := setattr order "order_type" OrderType_Market s1 in
  let s3 := setattr order "time_in_force" time_in_force s2 in
  let s4 :=
    match action with
    | None =>
        setattr order "total_quantity" (py_abs quantity)
          (setattr order "action"
             (if gt_zero quantity then Action_Buy else Action_Sell) s3)
    | Some a =>
        setattr order "total_quantity" quantity (setattr order "action" a s3)
    end in
  if place then place_order order s4
  else let '(f, s5) := wrap_immediate_future order s4 in (inr f, s5).

(** [create_limit_order] *)
Definition create_limit_order
    (instrument quantity limit : pyval) (action : option pyval)
    (time_in_force : pyval) (place : bool) (s : session) : (exn + loc) * session :=
  let '(order, s0) := new_object Order_init s in
  let s1 := setattr order "instrument" instrument s0 in
  let s2 := setattr order "order_type" OrderType_Limit s1 in
  let s3 := setattr order "limit_price" limit s2 in
  let s4 := setattr order "time_in_force" time_in_force s3 in
  let s5 :=
    match action with
    | None =>
        setattr order "total_quantity" (py_abs quantity)
          (setattr order "action"
             (if gt_zero quantity then Action_Buy else Action_Sell) s4)
    | Some a =>
        setattr order "total_quantity" quantity (setattr order "action" a s4)
    end in
  if place then place_order order s5
  else let '(f, s6) := wrap_immediate_future order s5 in (inr f, s6).

(** The positional arguments of an open-order push. *)
Record open_order_push : Type := OpenOrderPush {
  oo_order_id : Z;
  oo_instrument : pyval;
  oo_action : pyval;
  oo_total_quantity : pyval;
  oo_order_type : pyval;
  oo_limit_price : pyval;
  oo_aux_price : pyval;
  oo_time_in_force : pyval;
  oo_oca_group : pyval;
  oo_account : pyval;
  oo_open_close : pyval;
  oo_origin : pyval;
  oo_order_ref : pyval;
  oo_client_id : pyval;
  oo_perm_id : pyval;
  oo_outside_regular_trading_hours : pyval;
  oo_hidden : pyval;
  oo_discretionary_amount : pyval;
  oo_good_after_time : pyval;
  oo_deprecated_shares_allocation : pyval;
  oo_fa_group : pyval;
  oo_fa_method : pyval;
  oo_fa_percentage : pyval;
  oo_fa_profile : pyval
}.

(** Lines 140-162: the assignments from the positional arguments. *)
Definition open_order_assignments (p : open_order_push) : list (string * pyval) :=
  [ ("order_id", VInt (oo_order_id p));
    ("perm_id", oo_perm_id p);
    ("instrument", oo_instrument p);
    ("action", oo_action p);
    ("total_quantity", oo_total_quantity p);
    ("order_type", oo_order_type p);
    ("limit_price", oo_limit_price p);
    ("aux_price", oo_aux_price p);
    ("time_in_force", oo_time_in_force p);
    ("oca_group", oo_oca_group p);
    ("account", oo_account p);
    ("open_close", oo_open_close p);
    ("origin", oo_origin p);
    ("order_ref", oo_order_ref p);
    ("client_id", oo_client_id p);
    ("outside_regular_trading_hours", oo_outside_regular_trading_hours p);
    ("hidden", oo_hidden p);
    ("discretionary_amount", oo_discretionary_amount p);
    ("good_after_time", oo_good_after_time p);
    ("fa_group", oo_fa_group p);
    ("fa_method", oo_fa_method p);
    ("fa_percentage", oo_fa_percentage p);
    ("fa_profile", oo_fa_profile p) ].

(** Lines 135-138: look the order up, or synthesize it. *)
Definition find_or_create (order_id : Z) (s : session) : loc * session :=
  match orders s !! order_id with
  | Some order => (order, s)
  | None =>
      let '(order, s1) := new_object Order_init s in
      let s2 := set_orders (<[order_id := order]> (orders s1)) s1 in
      (order, setattr order "order_id" (VInt order_id) s2)
  end.

Definition find_or_create_order (order_id : Z) : M loc :=
  λ st, let '(order, s') := find_or_create order_id st.1 in (inr order, (s', st.2)).

(** Shorthands for the three shapes of [order.name = message.read(...)]. *)
Definition rd (o : loc) (name : string) (ty : ftype) : M unit :=
  read_into o name ty None None.
Definition rd_min_version (o : loc) (name : string) (ty : ftype) (v : Z) : M unit :=
  read_into o name ty (Some v) None.
Definition rd_min_message_version (o : loc) (name : string) (ty : ftype) (v : Z) : M unit :=
  read_into o name ty None (Some v).

(** [if cond: body] *)
Definition when (cond : bool) (body : M unit) : M unit :=
  if cond then body else mret tt.

(** Lines 164-211: from [model_code] to [combo_legs_description]. *)
Definition read_order_head (order : loc) : M unit :=
  rd_min_version order "model_code" TStr MODELS_SUPPORT;;
  rd order "good_till_date" TDateTime;;
  rd order "rule80a" TStr;;
  rd order "percent_offset" TFloat;;
  rd order "settling_firm" TStr;;
  rd order "short_sale_slot" TInt;;
  rd order "designated_location" TStr;;
  rd order "exempt_code" TInt;;
  rd order "auction_strategy" TStr;;
  rd order "starting_price" TFloat;;
  rd order "stock_ref_price" TFloat;;
  rd order "delta" TFloat;;
  rd order "stock_range_lower" TFloat;;
  rd order "stock_range_upper" TFloat;;
  rd order "display_size" TFloat;;
  rd order "block_order" TBool;;
  rd order "sweep_to_fill" TBool;;
  rd order "all_or_none" TBool;;
  rd order "min_quantity" TFloat;;
  rd order "oca_type" TInt;;
  rd order "etrade_only" TBool;;
  rd order "firm_quote_only" TBool;;
  rd order "nbbo_price_cap" TFloat;;
  rd order "parent_id" TInt;;
  rd order "trigger_method" TInt;;
  rd order "volatility" TFloat;;
  rd order "volatility_type" TInt;;
  rd order "delta_neutral_order_type" TStr;;
  rd order "delta_neutral_aux_price" TFloat;;
  delta_neutral ← get_attr order "delta_neutral_order_type";
  when (truthy delta_neutral)
    (rd order "delta_neutral_contract_id" TInt;;
     rd order "delta_neutral_settling_firm" TStr;;
     rd order "delta_neutral_clearing_account" TStr;;
     rd order "delta_neutral_clearing_intent" TStr;;
     rd order "delta_neutral_open_close" TStr;;
     rd order "delta_neutral_short_sale" TBool;;
     rd order "delta_neutral_short_sale_slot" TInt;;
     rd order "delta_neutral_designated_location" TStr);;
  rd order "continuous_update" TBool;;
  rd order "reference_price_type" TInt;;
  rd order "trail_stop_price" TFloat;;
  rd order "trailing_percent" TFloat;;
  rd order "basis_points" TFloat;;
  rd order "basis_points_type" TInt;;
  rd order "combo_legs_description" TStr.

(** Lines 219-273: from [smart_combo_routing_params] to the PEG BENCH block. *)
Definition read_order_middle (order : loc) : M unit :=
  rd order "smart_combo_routing_params" TDictStrStr;;
  rd order "scale_init_level_size" TInt;;
  rd order "scale_subs_level_size" TInt;;
  rd order "scale_price_increment" TFloat;;
  scale ← get_attr order "scale_price_increment";
  when (truthy scale)
    (rd_min_message_version order "scale_price_adjust_value" TFloat 28;;
     rd_min_message_version order "scale_price_adjust_interval" TInt 28;;
     rd_min_message_version order "scale_profit_offset" TFloat 28;;
     rd_min_message_version order "scale_auto_reset" TBool 28;;
     rd_min_message_version order "scale_init_position" TInt 28;;
     rd_min_message_version order "scale_init_fill_quantity" TInt 28;;
     rd_min_message_version order "scale_random_percent" TFloat 28);;
  rd_min_message_version order "hedge_type" TStr 24;;
  hedge ← get_attr order "hedge_type";
  when (truthy hedge) (rd order "hedge_param" TStr);;
  rd_min_message_version order "opt_out_smart_routing" TBool 25;;
  rd order "clearing_account" TStr;;
  rd order "clearing_intent" TStr;;
  rd_min_message_version order "not_held" TBool 22;;
  has_underlying ← read TBool None (Some 20);
  when (truthy has_underlying)
    (component ← read TUnderlyingComponent None None;
     set_underlying_component order component);;
  rd_min_message_version order "algo_strategy" TStr 21;;
  algo ← get_attr order "algo_strategy";
  when (truthy algo) (rd order "algo_parameters" TDict);;
  rd_min_message_version order "solicited" TBool 33;;
  rd order "what_if" TBool;;
  rd order "status" TStr;;
  rd order "inital_margin" TStr;;
  rd order "maintenance_margin" TStr;;
  rd order "equity_with_loan" TStr;;
  rd order "commission" TFloat;;
  rd order "min_commission" TFloat;;
  rd order "max_commission" TFloat;;
  rd order "commission_currency" TStr;;
  rd order "warning_text" TStr;;
  rd_min_message_version order "randomize_size" TBool 34;;
  rd_min_message_version order "randomize_price" TBool 34;;
  order_type ← get_attr order "order_type";
  when (eq_str order_type "PEG BENCH")
    (rd_min_version order "reference_contract_id" TInt PEGGED_TO_BENCHMARK;;
     rd_min_version order "is_pegged_change_amount_decrease" TBool PEGGED_TO_BENCHMARK;;
     rd_min_version order "pegged_change_amount" TFloat PEGGED_TO_BENCHMARK;;
     rd_min_version order "reference_change_amount" TFloat PEGGED_TO_BENCHMARK;;
     rd_min_version order "reference_exchange_id" TStr PEGGED_TO_BENCHMARK).

(** Lines 278-291: from [adjusted_order_type] to [cash_quantity]. *)
Definition read_order_tail (order : loc) : M unit :=
  rd_min_version order "adjusted_order_type" TStr PEGGED_TO_BENCHMARK;;
  rd_min_version order "trigger_price" TFloat PEGGED_TO_BENCHMARK;;
  rd_min_version order "trail_stop_price" TFloat PEGGED_TO_BENCHMARK;;
  rd_min_version order "limit_price_offset" TFloat PEGGED_TO_BENCHMARK;;
  rd_min_version order "adjusted_stop_price" TFloat PEGGED_TO_BENCHMARK;;
  rd_min_version order "adjusted_stop_limit_price" TFloat PEGGED_TO_BENCHMARK;;
  rd_min_version order "adjusted_trailing_amount" TFloat PEGGED_TO_BENCHMARK;;
  rd_min_version order "adjustable_trailing_unit" TInt PEGGED_TO_BENCHMARK;;
  rd_min_version order "soft_dollar_tier_name" TStr SOFT_DOLLAR_TIER;;
  rd_min_version order "soft_dollar_tier_value" TStr SOFT_DOLLAR_TIER;;
  rd_min_version order "soft_dollar_tier_display_name" TStr SOFT_DOLLAR_TIER;;
  rd_min_version order "cash_quantity" TFloat CASH_QTY.

(** Lines 293-297: retire and resolve the placement future, then notify. *)
Definition finish_open_order (order_id : Z) (order : loc) : M unit :=
  lift_op (resolve_submitted order_id order);;
  lift_op (λ s, (inr tt, fire_updated order s)).

(** [_handle_open_order] *)
Definition _handle_open_order (p : open_order_push) : M unit :=
  order ← find_or_create_order (oo_order_id p);
  set_attrs order (open_order_assignments p);;
  read_order_head order;;
  combo_legs ← read TInt None None;
  if truthy combo_legs then raise (UnsupportedFeature "combo legs")
  else
    order_combo_legs ← read TInt None None;
    if truthy order_combo_legs then raise (UnsupportedFeature "order combo legs")
    else
      read_order_middle order;;
      conditions ← read TInt (Some PEGGED_TO_BENCHMARK) None;
      if truthy conditions then raise (UnsupportedFeature "order conditions")
      else
        read_order_tail order;;
        finish_open_order (oo_order_id p) order.

(** The handler from line 164 on: everything that is read off the message,
    then the resolution. *)
Definition decode_open_order (order_id : Z) (order : loc) : M unit :=
  read_order_head order;;
  combo_legs ← read TInt None None;
  if truthy combo_legs then raise (UnsupportedFeature "combo legs")
  else
    order_combo_legs ← read TInt None None;
    if truthy order_combo_legs then raise (UnsupportedFeature "order combo legs")
    else
      read_order_middle order;;
      conditions ← read TInt (Some PEGGED_TO_BENCHMARK) None;
      if truthy conditions then raise (UnsupportedFeature "order conditions")
      else
        read_order_tail order;;
        finish_open_order order_id order.

(** ** Prefixes of the open-order handler

    The handler cut right after each of its three presence counts has been
    read; each prefix hands back the order and the count. *)

Definition upto_combo_legs (p : open_order_push) : M (loc * pyval) :=
  order ← find_or_create_order (oo_order_id p);
  set_attrs order (open_order_assignments p);;
  read_order_head order;;
  combo_legs ← read TInt None None;
  mret (order, combo_legs).

Definition upto_order_combo_legs (p : open_order_push) : M (loc * pyval) :=
  '(order, combo_legs) ← upto_combo_legs p;
  if truthy combo_legs then raise (UnsupportedFeature "combo legs")
  else
    order_combo_legs ← read TInt None None;
    mret (order, order_combo_legs).

Definition upto_conditions (p : open_order_push) : M (loc * pyval) :=
  '(order, order_combo_legs) ← upto_order_combo_legs p;
  if truthy order_combo_legs then raise (UnsupportedFeature "order combo legs")
  else
    read_order_middle order;;
    conditions ← read TInt (Some PEGGED_TO_BENCHMARK) None;
    mret (order, conditions).

(** The three presence counts whose sections are not implemented. *)
Inductive presence_count : Type :=
| ComboLegs
| OrderComboLegs
| OrderConditions.

Definition upto (c : presence_count) (p : open_order_push) : M (loc * pyval) :=
  match c with
  | ComboLegs => upto_combo_legs p
  | OrderComboLegs => upto_order_combo_legs p
  | OrderConditions => upto_conditions p
  end.

(** The feature the raised [UnsupportedFeature] names. *)
Definition feature_name (c : presence_count) : string :=
  match c with
  | ComboLegs => "combo legs"
  | OrderComboLegs => "order combo legs"
  | OrderConditions => "order conditions"
  end.

(** ** Runs of the session

    What callers and the delivery path can do to a session, one operation at
    a time. *)

Inductive op : Type :=
| CallNewObject (d : gmap string pyval)          (* compose an object *)
| CallSetAttr (o : loc) (name : string) (v : pyval)
| CallPlaceOrder (order : loc)
| CallCreateMarketOrder (instrument quantity : pyval) (action : option pyval)
    (time_in_force : pyval) (place : bool)
| CallCreateLimitOrder (instrument quantity limit : pyval) (action : option pyval)
    (time_in_force : pyval) (place : bool)
| CallGetOpenOrders
| PushOpenOrderEnd
| PushOrderStatus (order_id : Z) (p : status_push)
| PushOpenOrder (p : open_order_push) (m : IncomingMessage)
| PushNextValidId (next_id : Z)
| PushErrMsg (request_id error_code : Z) (error_message : string).

Definition run_op (a : op) (s : session) : session :=
  match a with
  | CallNewObject d => (new_object d s).2
  | CallSetAttr o name v => setattr o name v s
  | CallPlaceOrder order => (place_order order s).2
  | CallCreateMarketOrder i q a t pl => (create_market_order i q a t pl s).2
  | CallCreateLimitOrder i q l a t pl => (create_limit_order i q l a t pl s).2
  | CallGetOpenOrders => (get_open_orders s).2
  | PushOpenOrderEnd => (_handle_open_order_end s).2
  | PushOrderStatus order_id p => (_handle_order_status order_id p s).2
  | PushOpenOrder p m => (_handle_open_order p (s, m)).2.1
  | PushNextValidId n => _handle_next_valid_id n s
  | PushErrMsg r c m => (_handle_err_msg r c m s).2
  end.

Definition run_ops (l : list op) (s : session) : session :=
  fold_left (λ acc a, run_op a acc) l s.

Definition reachable (s : session) : Prop :=
  ∃ l, s = run_ops l init_session.

End Orders.

(** ** Invariant of the correlation maps *)

Record session_inv (s : session) : Prop := SessionInv {
  inv_orders : ∀ k o, orders s !! k = Some o → (o < length (objs s))%nat;
  inv_pending : ∀ k f, submitted_future s !! k = Some f → futs s !! f = Some Pending;
  inv_inj : ∀ k1 k2 f,
      submitted_future s !! k1 = Some f → submitted_future s !! k2 = Some f → k1 = k2;
  inv_known : ∀ k f, submitted_future s !! k = Some f → is_Some (orders s !! k);
  inv_open : ∀ f, open_orders_future s = Some f →
      futs s !! f = Some Pending ∧ ∀ k, submitted_future s !! k ≠ Some f
}.

(** A pending future that neither correlation slot refers to any more. *)
Definition orphaned (f : loc) (s : session) : Prop :=
  futs s !! f = Some Pending
  ∧ (∀ k, submitted_future s !! k ≠ Some f)
  ∧ open_orders_future s ≠ Some f.

(** A future that is done: resolved or failed. *)
Definition done (f : loc) (s : session) : Prop :=
  ∃ x, futs s !! f = Some x ∧ x ≠ Pending.

(** The state in which a future [f] registered under [k] has been popped and
    completed with [x]. *)
Definition retire (k : Z) (f : loc) (x : future) (s : session) : session :=
  set_futs (<[f := x]> (futs s))
    (set_submitted_future (delete k (submitted_future s)) s).

(** Lines 293-297 on the session alone. *)
Definition finish_result (order_id : Z) (order : loc) (s : session)
    : (exn + unit) * session :=
  match resolve_submitted order_id order s with
  | (inr _, s') => (inr tt, fire_updated order s')
  | (inl e, s') => (inl e, s')
  end.

(** ** Frames of the decoder *)

(** Every attribute name the field reads of [_handle_open_order] assign. *)
Definition decoded_names : list string :=
  [ "model_code"; "good_till_date"; "rule80a"; "percent_offset";
    "settling_firm"; "short_sale_slot"; "designated_location"; "exempt_code";
    "auction_strategy"; "starting_price"; "stock_ref_price"; "delta";
    "stock_range_lower"; "stock_range_upper"; "display_size"; "block_order";
    "sweep_to_fill"; "all_or_none"; "min_quantity"; "oca_type"; "etrade_only";
    "firm_quote_only"; "nbbo_price_cap"; "parent_id"; "trigger_method";
    "volatility"; "volatility_type"; "delta_neutral_order_type";
    "delta_neutral_aux_price"; "delta_neutral_contract_id";
    "delta_neutral_settling_firm"; "delta_neutral_clearing_account";
    "delta_neutral_clearing_intent"; "delta_neutral_open_close";
    "delta_neutral_short_sale"; "delta_neutral_short_sale_slot";
    "delta_neutral_designated_location"; "continuous_update";
    "reference_price_type"; "trail_stop_price"; "trailing_percent";
    "basis_points"; "basis_points_type"; "combo_legs_description";
    "smart_combo_routing_params"; "scale_init_level_size";
    "scale_subs_level_size"; "scale_price_increment";
    "scale_price_adjust_value"; "scale_price_adjust_interval";
    "scale_profit_offset"; "scale_auto_reset"; "scale_init_position";
    "scale_init_fill_quantity"; "scale_random_percent"; "hedge_type";
    "hedge_param"; "opt_out_smart_routing"; "clearing_account";
    "clearing_intent"; "not_held"; "underlying_component"; "algo_strategy";
    "algo_parameters"; "solicited"; "what_if"; "status"; "inital_margin";
    "maintenance_margin"; "equity_with_loan"; "commission"; "min_commission";
    "max_commission"; "commission_currency"; "warning_text"; "randomize_size";
    "randomize_price"; "reference_contract_id";
    "is_pegged_change_amount_decrease"; "pegged_change_amount";
    "reference_change_amount"; "reference_exchange_id"; "adjusted_order_type";
    "trigger_price"; "limit_price_offset"; "adjusted_stop_price";
    "adjusted_stop_limit_price"; "adjusted_trailing_amount";
    "adjustable_trailing_unit"; "soft_dollar_tier_name";
    "soft_dollar_tier_value"; "soft_dollar_tier_display_name";
    "cash_quantity" ].

(** [s'] differs from [s] at most in attributes named in [names]. *)
Record attrs_frame (names : list string) (s s' : session) : Prop := AttrsFrame {
  fr_futs : futs s' = futs s;
  fr_orders : orders s' = orders s;
  fr_next_order_id : next_order_id s' = next_order_id s;
  fr_submitted_future : submitted_future s' = submitted_future s;
  fr_open_orders_future : open_orders_future s' = open_orders_future s;
  fr_sent : sent s' = sent s;
  fr_updated_log : updated_log s' = updated_log s;
  fr_session_errors : session_errors s' = session_errors s;
  fr_length : length (objs s') = length (objs s);
  fr_attrs : ∀ l n, n ∉ names → getattr l n s' = getattr l n s
}.

(** A decoder step that stays within the frame, whatever its outcome, and
    that does not touch a future. *)
Definition framed {A : Type} (names : list string) (c : M A) : Prop :=
  ∀ st, attrs_frame names st.1 (c st).2.1 ∧ (c st).1 ≠ inl InvalidStateError.

(** A decoder run ends in one of two ways: it raises while decoding, having
    changed decoded attributes only, or it decodes to the end and finishes. *)
Definition decodes_then_finishes (order_id : Z) (order : loc) (c : M unit) : Prop :=
  ∀ s m, ∃ s2,
    attrs_frame decoded_names s s2
    ∧ (((c (s, m)).2.1 = s2
        ∧ ∃ e, (c (s, m)).1 = inl e ∧ e ≠ InvalidStateError)
       ∨ ((c (s, m)).1, (c (s, m)).2.1) = finish_result order_id order s2).

(** ** Market data: subscription diffing and the version check

    Modelled from the spec: the market-data mixin
    ([ib_async.functionality.market_data]) is not in the sources, only its
    test is.  Per instrument the manager keeps the active request id and the
    tick-type set last sent; a mutation of the declared interest is turned
    into wire traffic by a pure diff against that record. *)

Inductive md_msg : Type :=
| MdSubscribe (request_id : Z) (tick_types : gset Z)
    (snapshot regulatory_snapshot : bool)        (* REQ_MKT_DATA *)
| MdUnsubscribe (request_id : Z).                (* CANCEL_MKT_DATA *)

Record subscription : Type := Subscription {
  active_request_id : option Z;
  last_sent_tick_types : gset Z
}.

Definition is_subscribe (m : md_msg) : bool :=
  match m with
  | MdSubscribe _ _ _ _ => true
  | MdUnsubscribe _ => false
  end.

(** Modelled from the spec: the reaction to a mutation of the declared
    tick-type interest (section 4.4).  Non-empty interest with no active
    subscription, or differing from what was last sent: one subscribe with
    the full current set (a resubscription reuses the active id).  Empty
    interest with an active subscription: one unsubscribe, and the id is
    cleared.  Unchanged interest: nothing. *)
Definition set_market_data_tick_types (declared : gset Z) (fresh_id : Z)
    (st : subscription) : subscription * list md_msg :=
  if decide (declared = ∅) then
    match active_request_id st with
    | Some r =>
        ({| active_request_id := None;
            last_sent_tick_types := last_sent_tick_types st |},
         [MdUnsubscribe r])
    | None => (st, [])
    end
  else
    match active_request_id st with
    | Some r =>
        if decide (declared = last_sent_tick_types st) then (st, [])
        else
          ({| active_request_id := Some r; last_sent_tick_types := declared |},
           [MdSubscribe r declared false false])
    | None =>
        ({| active_request_id := Some fresh_id; last_sent_tick_types := declared |},
         [MdSubscribe fresh_id declared false false])
    end.

Record md_client : Type := MdClient {
  md_version : Z;                 (* negotiated protocol version *)
  md_next_request_id : Z;
  md_wire : list md_msg
}.

(** Modelled from the spec: [get_market_data] of the absent mixin (section 7,
    stale-version error).  A regulatory snapshot needs a protocol version of
    at least [required]; below it the call raises before anything is sent. *)
Definition get_market_data (required : Z) (tick_types : gset Z)
    (snapshot regulatory_snapshot : bool) (c : md_client) : (exn + Z) * md_client :=
  if regulatory_snapshot && Z.ltb (md_version c) required
  then (inl OutdatedServerError, c)
  else
    let r := md_next_request_id c in
    (inr r,
     {| md_version := md_version c;
        md_next_request_id := r + 1;
        md_wire := md_wire c ++ [MdSubscribe r tick_types snapshot regulatory_snapshot] |}).

(** ** A sample environment

    Used to run the handlers on concrete pushes: counts and flags are parsed
    from the empty token, 0 and 1, every other token is kept as text, and a fresh
    order holds no attribute. *)

Definition sample_decode (ty : ftype) (tokens : list string)
    : option (pyval * list string) :=
  match tokens with
  | [] => None
  | t :: rest =>
      match ty with
      | TInt =>
          if String.eqb t EmptyString || String.eqb t "0"
          then Some (VInt 0, rest)
          else if String.eqb t "1" then Some (VInt 1, rest)
          else None
      | TBool =>
          if String.eqb t EmptyString || String.eqb t "0"
          then Some (VBool false, rest)
          else if String.eqb t "1" then Some (VBool true, rest)
          else None
      | _ => Some (VStr t, rest)
      end
  end.

Definition sample_env : Environment :=
  {| Order_init := ∅;
     decode := sample_decode;
     MODELS_SUPPORT := 103;
     PEGGED_TO_BENCHMARK := 102;
     SOFT_DOLLAR_TIER := 106;
     CASH_QTY := 111 |}.

(** An open-order message of the sample environment whose first [n] fields
    are empty and whose next field is the count [c]. *)
Definition sample_message (n : nat) (c : string) : IncomingMessage :=
  {| fields := replicate n EmptyString ++ [c];
     version := 100; message_version := 34 |}.

(** The same at protocol version 102, where the conditions count is on the
    wire. *)
Definition sample_message_102 (n : nat) (c : string) : IncomingMessage :=
  {| fields := replicate n EmptyString ++ [c];
     version := 102; message_version := 34 |}.

Definition sample_push (order_id : Z) : open_order_push :=
  {| oo_order_id := order_id; oo_instrument := VNone; oo_action := Action_Buy;
     oo_total_quantity := VInt 100; oo_order_type := VStr "LMT";
     oo_limit_price := VFloat 13.37%float; oo_aux_price := VFloat 0%float;
     oo_time_in_force := VStr "GTC"; oo_oca_group := VStr EmptyString;
     oo_account := VStr "DU1"; oo_open_close := VStr "O"; oo_origin := VInt 0;
     oo_order_ref := VStr EmptyString; oo_client_id := VInt 7;
     oo_perm_id := VInt 99;
     oo_outside_regular_trading_hours := VBool false; oo_hidden := VBool false;
     oo_discretionary_amount := VFloat 0%float;
     oo_good_after_time := VStr EmptyString;
     oo_deprecated_shares_allocation := VStr EmptyString;
     oo_fa_group := VStr EmptyString; oo_fa_method := VStr EmptyString;
     oo_fa_percentage := VStr EmptyString; oo_fa_profile := VStr EmptyString |}.

Definition sample_status : status_push :=
  {| sp_status := VStr "Submitted"; sp_filled := VInt 0; sp_remaining := VInt 100;
     sp_average_fill_price := VFloat 0%float; sp_perm_id := VInt 99;
     sp_parent_id := VInt 0; sp_last_fill_price := VInt 0; sp_client_id := VInt 7;
     sp_why_held := VStr EmptyString; sp_market_cap_price := VNone |}.

(** ** The open-order handler after each presence count *)

Section Continuations.
Context {env : Environment}.

(** What the handler does with each count once it has been read. *)
Definition on_combo_legs (p : open_order_push) (x : loc * pyval) : M unit :=
  if truthy x.2 then raise (UnsupportedFeature "combo legs")
  else
    order_combo_legs ← read TInt None None;
    if truthy order_combo_legs then raise (UnsupportedFeature "order combo legs")
    else
      read_order_middle x.1;;
      conditions ← read TInt (Some PEGGED_TO_BENCHMARK) None;
      if truthy conditions then raise (UnsupportedFeature "order conditions")
      else
        read_order_tail x.1;;
        finish_open_order (oo_order_id p) x.1.

Definition on_order_combo_legs (p : open_order_push) (x : loc * pyval) : M unit :=
  if truthy x.2 then raise (UnsupportedFeature "order combo legs")
  else
    read_order_middle x.1;;
    conditions ← read TInt (Some PEGGED_TO_BENCHMARK) None;
    if truthy conditions then raise (UnsupportedFeature "order conditions")
    else
      read_order_tail x.1;;
      finish_open_order (oo_order_id p) x.1.

Definition on_conditions (p : open_order_push) (x : loc * pyval) : M unit :=
  if truthy x.2 then raise (UnsupportedFeature "order conditions")
  else
    read_order_tail x.1;;
    finish_open_order (oo_order_id p) x.1.

End Continuations.

(** The attributes [create_limit_order] composes before placing. *)
Definition limit_order_fields (instrument quantity limit tif : pyval)
    : list (string * pyval) :=
  [ ("instrument", instrument); ("order_type", OrderType_Limit);
    ("limit_price", limit); ("time_in_force", tif);
    ("action", if gt_zero quantity then Action_Buy else Action_Sell);
    ("total_quantity", py_abs quantity) ].

(** ** The scenario of the specification *)

(** [create_limit_order(instrument, 100, 13.37)]: no action, default
    time in force, placed. *)
Definition limit_order_example {env : Environment} (instrument : pyval)
    (s : session) : (exn + loc) * session :=
  create_limit_order instrument (VInt 100) (VFloat 13.37%float) None
    TimeInForce_GoodTillCancel true s.

(** The status push
    [(order_id, "Submitted", 0, 100, 0.0, perm_id, 0, 0, client_id, empty)]. *)
Definition submitted_push (perm_id client_id : pyval) : status_push :=
  {| sp_status := VStr "Submitted"; sp_filled := VInt 0;
     sp_remaining := VInt 100; sp_average_fill_price := VFloat 0%float;
     sp_perm_id := perm_id; sp_parent_id := VInt 0;
     sp_last_fill_price := VInt 0; sp_client_id := client_id;
     sp_why_held := VStr EmptyString; sp_market_cap_price := VNone |}.

(** The sample session after one limit order has been placed: order 0 is
    registered under id 1 and its future 0 is pending. *)
Definition sample_placed : session :=
  @run_ops sample_env
    [CallCreateLimitOrder VNone (VInt 100) (VFloat 13.37%float) None
       TimeInForce_GoodTillCancel true]
    init_session.

(** A session holding two freshly composed orders that have no id yet. *)
Definition two_new_orders : session :=
  (new_object ∅ (new_object ∅ init_session).2).2.

(** ** Pushes and what they are addressed to *)

(** The operations that come from the delivery path. *)
Definition is_push {env : Environment} (a : op) : bool :=
  match a with
  | PushOpenOrderEnd | PushOrderStatus _ _ | PushOpenOrder _ _
  | PushNextValidId _ | PushErrMsg _ _ _ => true
  | _ => false
  end.

(** The order or request id a push carries, if it carries one. *)
Definition addressed_id {env : Environment} (a : op) : option Z :=
  match a with
  | PushOrderStatus order_id _ => Some order_id
  | PushOpenOrder p _ => Some (oo_order_id p)
  | PushErrMsg request_id _ _ => Some request_id
  | _ => None
  end.

(** [s'] knows every order id [s] knows and has deallocated nothing. *)
Definition extends (s s' : session) : Prop :=
  (∀ k, is_Some (orders s !! k) → is_Some (orders s' !! k))
  ∧ (length (objs s) ≤ length (objs s'))%nat
  ∧ (length (futs s) ≤ length (futs s'))%nat.

(** * Properties *)

(** ** Attributes *)

Lemma setattr_length o n v s : length (objs (setattr o n v s)) = length (objs s).
Proof.
  unfold setattr. destruct (objs s !! o); [|done].
  simpl. by rewrite length_insert.
Qed.

Lemma setattr_rest o n v s :
  futs (setattr o n v s) = futs s
  ∧ orders (setattr o n v s) = orders s
  ∧ next_order_id (setattr o n v s) = next_order_id s
  ∧ submitted_future (setattr o n v s) = submitted_future s
  ∧ open_orders_future (setattr o n v s) = open_orders_future s
  ∧ sent (setattr o n v s) = sent s
  ∧ updated_log (setattr o n v s) = updated_log s
  ∧ session_errors (setattr o n v s) = session_errors s.
Proof. unfold setattr. by destruct (objs s !! o). Qed.

Lemma getattr_setattr_eq o n v s :
  (o < length (objs s))%nat → getattr o n (setattr o n v s) = v.
Proof.
  intros Hlt. unfold getattr, setattr.
  destruct (lookup_lt_is_Some_2 _ _ Hlt) as [d Hd]. rewrite Hd. simpl.
  rewrite list_lookup_insert_eq by done. by rewrite lookup_insert_eq.
Qed.

Lemma getattr_setattr_ne o l n n' v s :
  n' ≠ n → getattr l n' (setattr o n v s) = getattr l n' s.
Proof.
  intros Hne. unfold getattr, setattr.
  destruct (objs s !! o) as [d|] eqn:Hd; [|done]. simpl.
  destruct (decide (l = o)) as [->|Hl].
  - rewrite list_lookup_insert_eq by (by eapply lookup_lt_Some).
    rewrite Hd. by rewrite lookup_insert_ne.
  - by rewrite list_lookup_insert_ne.
Qed.

Lemma getattr_setattr_other o l n n' v s :
  l ≠ o → getattr l n' (setattr o n v s) = getattr l n' s.
Proof.
  intros Hl. unfold getattr, setattr.
  destruct (objs s !! o) as [d|] eqn:Hd; [|done]. simpl.
  by rewrite list_lookup_insert_ne.
Qed.

Lemma setattrs_cons o n v l s :
  setattrs o ((n, v) :: l) s = setattrs o l (setattr o n v s).
Proof. reflexivity. Qed.

Lemma setattrs_length o l s : length (objs (setattrs o l s)) = length (objs s).
Proof.
  revert s. induction l as [|[n v] l IH]; intros s; [done|].
  rewrite setattrs_cons, IH. apply setattr_length.
Qed.

Lemma setattrs_rest o l s :
  futs (setattrs o l s) = futs s
  ∧ orders (setattrs o l s) = orders s
  ∧ next_order_id (setattrs o l s) = next_order_id s
  ∧ submitted_future (setattrs o l s) = submitted_future s
  ∧ open_orders_future (setattrs o l s) = open_orders_future s
  ∧ sent (setattrs o l s) = sent s
  ∧ updated_log (setattrs o l s) = updated_log s
  ∧ session_errors (setattrs o l s) = session_errors s.
Proof.
  revert s. induction l as [|[n v] l IH]; intros s; [done|].
  rewrite setattrs_cons.
  destruct (IH (setattr o n v s)) as (-> & -> & -> & -> & -> & -> & -> & ->).
  apply setattr_rest.
Qed.

Lemma getattr_setattrs_notin o l' n l s :
  n ∉ l.*1 → getattr l' n (setattrs o l s) = getattr l' n s.
Proof.
  revert s. induction l as [|[n0 v0] l IH]; intros s Hn; [done|].
  rewrite setattrs_cons. simpl in Hn.
  apply not_elem_of_cons in Hn as [Hne Hn].
  rewrite IH by done. by apply getattr_setattr_ne.
Qed.

Lemma getattr_setattrs_other o l' n l s :
  l' ≠ o → getattr l' n (setattrs o l s) = getattr l' n s.
Proof.
  revert s. induction l as [|[n0 v0] l IH]; intros s Hn; [done|].
  rewrite setattrs_cons, IH by done. by apply getattr_setattr_other.
Qed.

Lemma getattr_setattrs_in o n v l s :
  NoDup l.*1 → (n, v) ∈ l → (o < length (objs s))%nat →
  getattr o n (setattrs o l s) = v.
Proof.
  revert s. induction l as [|[n0 v0] l IH]; intros s Hnd Hin Hlt.
  - by apply elem_of_nil in Hin.
  - rewrite setattrs_cons. simpl in Hnd. apply NoDup_cons in Hnd as [Hfresh Hnd].
    apply elem_of_cons in Hin as [Heq|Hin].
    + injection Heq as -> ->.
      rewrite getattr_setattrs_notin by done. by apply getattr_setattr_eq.
    + apply IH; [done..|]. by rewrite setattr_length.
Qed.

(** ** Projections of the state transformers *)

Lemma setattrs_futs o l s : futs (setattrs o l s) = futs s.
Proof. apply setattrs_rest. Qed.

Lemma setattrs_orders o l s : orders (setattrs o l s) = orders s.
Proof. apply setattrs_rest. Qed.

Lemma setattrs_submitted_future o l s :
  submitted_future (setattrs o l s) = submitted_future s.
Proof. apply setattrs_rest. Qed.

Lemma setattrs_open_orders_future o l s :
  open_orders_future (setattrs o l s) = open_orders_future s.
Proof. apply setattrs_rest. Qed.

Lemma setattrs_next_order_id o l s : next_order_id (setattrs o l s) = next_order_id s.
Proof. apply setattrs_rest. Qed.

Lemma setattrs_sent o l s : sent (setattrs o l s) = sent s.
Proof. apply setattrs_rest. Qed.

Lemma fire_updated_futs o s : futs (fire_updated o s) = futs s.
Proof. reflexivity. Qed.

Lemma fire_updated_orders o s : orders (fire_updated o s) = orders s.
Proof. reflexivity. Qed.

Lemma fire_updated_submitted_future o s :
  submitted_future (fire_updated o s) = submitted_future s.
Proof. reflexivity. Qed.

Lemma fire_updated_open_orders_future o s :
  open_orders_future (fire_updated o s) = open_orders_future s.
Proof. reflexivity. Qed.

Lemma fire_updated_objs o s : objs (fire_updated o s) = objs s.
Proof. reflexivity. Qed.

Lemma retire_futs k f x s : futs (retire k f x s) = <[f := x]> (futs s).
Proof. reflexivity. Qed.

Lemma retire_orders k f x s : orders (retire k f x s) = orders s.
Proof. reflexivity. Qed.

Lemma retire_submitted_future k f x s :
  submitted_future (retire k f x s) = delete k (submitted_future s).
Proof. reflexivity. Qed.

Lemma retire_open_orders_future k f x s :
  open_orders_future (retire k f x s) = open_orders_future s.
Proof. reflexivity. Qed.

Lemma retire_objs k f x s : objs (retire k f x s) = objs s.
Proof. reflexivity. Qed.

Lemma retire_session_errors k f x s :
  session_errors (retire k f x s) = session_errors s.
Proof. reflexivity. Qed.

Lemma getattr_objs o n s s' : objs s' = objs s → getattr o n s' = getattr o n s.
Proof. intros H. unfold getattr. by rewrite H. Qed.

Lemma getattr_fire_updated o' n o s :
  getattr o' n (fire_updated o s) = getattr o' n s.
Proof. reflexivity. Qed.

Lemma getattr_retire o n k f x s : getattr o n (retire k f x s) = getattr o n s.
Proof. reflexivity. Qed.

Create Rewrite HintDb session.

#[local] Hint Rewrite
  setattrs_futs setattrs_orders setattrs_submitted_future
  setattrs_open_orders_future setattrs_next_order_id setattrs_sent
  setattrs_length
  fire_updated_futs fire_updated_orders fire_updated_submitted_future
  fire_updated_open_orders_future fire_updated_objs
  retire_futs retire_orders retire_submitted_future
  retire_open_orders_future retire_objs retire_session_errors
  getattr_fire_updated getattr_retire : session.

(** ** The decoder monad *)

Lemma run_bind {A B} (c : M A) (k : A → M B) st :
  (c ≫= k) st =
  match c st with
  | (inr a, st') => k a st'
  | (inl e, st') => (inl e, st')
  end.
Proof. reflexivity. Qed.

Lemma attrs_frame_refl names s : attrs_frame names s s.
Proof. by constructor. Qed.

Lemma attrs_frame_trans names s1 s2 s3 :
  attrs_frame names s1 s2 → attrs_frame names s2 s3 → attrs_frame names s1 s3.
Proof.
  intros [? ? ? ? ? ? ? ? ? Ha] [? ? ? ? ? ? ? ? ? Hb].
  constructor; try congruence.
  intros l n Hn. rewrite Hb by done. auto.
Qed.

Lemma attrs_frame_setattr names o n v s :
  n ∈ names → attrs_frame names s (setattr o n v s).
Proof.
  intros Hin. destruct (setattr_rest o n v s) as (? & ? & ? & ? & ? & ? & ? & ?).
  constructor; try done.
  - apply setattr_length.
  - intros l n' Hn'. apply getattr_setattr_ne. by intros ->.
Qed.

Lemma framed_ret {A} names (a : A) : framed names (mret a).
Proof. intros st. split; [apply attrs_frame_refl | done]. Qed.

Lemma framed_raise {A} names e :
  e ≠ InvalidStateError → framed names (@raise A e).
Proof. intros He st. split; [apply attrs_frame_refl | simpl; congruence]. Qed.

Lemma framed_bind {A B} names (c : M A) (k : A → M B) :
  framed names c → (∀ a, framed names (k a)) → framed names (c ≫= k).
Proof.
  intros Hc Hk st. rewrite run_bind. destruct (Hc st) as [Hfr Hne].
  destruct (c st) as [[e|a] st'].
  { split; [exact Hfr|]. simpl in *. intros [= ->]. by apply Hne. }
  destruct (Hk a st') as [Hfr' Hne']. split; [|done].
  eapply attrs_frame_trans; [exact Hfr | exact Hfr'].
Qed.

Lemma framed_get_attr names o n : framed names (get_attr o n).
Proof. intros st. split; [apply attrs_frame_refl | done]. Qed.

Lemma framed_set_attr names o n v : n ∈ names → framed names (set_attr o n v).
Proof. intros Hin st. split; [by apply attrs_frame_setattr | done]. Qed.

Lemma framed_when names b c : framed names c → framed names (when b c).
Proof. intros Hc. destruct b; [done|]. apply framed_ret. Qed.

Section Frames.
Context {env : Environment}.

Lemma read_session ty mv mmv st : (read ty mv mmv st).2.1 = st.1.
Proof.
  unfold read. destruct (_ && _); [|done].
  by destruct (decode ty _) as [[v rest]|].
Qed.

Lemma read_not_invalid_state ty mv mmv st :
  (read ty mv mmv st).1 ≠ inl InvalidStateError.
Proof.
  unfold read. destruct (_ && _); [|done].
  by destruct (decode ty _) as [[v rest]|].
Qed.

Lemma framed_read names ty mv mmv : framed names (read ty mv mmv).
Proof.
  intros st. rewrite read_session.
  split; [apply attrs_frame_refl | apply read_not_invalid_state].
Qed.

Lemma framed_read_into names o n ty mv mmv :
  n ∈ names → framed names (read_into o n ty mv mmv).
Proof.
  intros Hin. apply framed_bind; [apply framed_read|].
  intros v. by apply framed_set_attr.
Qed.

Lemma framed_set_underlying_component names o v :
  "underlying_component" ∈ names → framed names (set_underlying_component o v).
Proof.
  intros Hin. apply framed_bind; [apply framed_get_attr|].
  intros []; try (by apply framed_raise). by apply framed_set_attr.
Qed.

Ltac in_names := apply (bool_decide_unpack _); vm_compute; exact I.

Ltac framed_step :=
  first
    [ apply framed_read_into; in_names
    | apply framed_set_underlying_component; in_names
    | apply framed_when
    | apply framed_read
    | apply framed_get_attr
    | apply framed_ret
    | apply framed_raise; discriminate
    | apply framed_bind; [|intros ?] ].

Lemma framed_read_order_head o : framed decoded_names (read_order_head o).
Proof. unfold read_order_head, rd, rd_min_version. repeat framed_step. Qed.

Lemma framed_read_order_middle o : framed decoded_names (read_order_middle o).
Proof.
  unfold read_order_middle, rd, rd_min_version, rd_min_message_version.
  repeat framed_step.
Qed.

Lemma framed_read_order_tail o : framed decoded_names (read_order_tail o).
Proof. unfold read_order_tail, rd, rd_min_version. repeat framed_step. Qed.

(** *** The two ways an open-order decode ends *)

Lemma finish_open_order_run id o st :
  finish_open_order id o st =
  ((finish_result id o st.1).1, ((finish_result id o st.1).2, st.2)).
Proof.
  unfold finish_open_order, finish_result, lift_op. rewrite run_bind. simpl.
  by destruct (resolve_submitted id o st.1) as [[e|[]] s'].
Qed.

Lemma shape_finish id o : decodes_then_finishes id o (finish_open_order id o).
Proof.
  intros s m. exists s. split; [apply attrs_frame_refl|]. right.
  rewrite finish_open_order_run. simpl. by destruct (finish_result id o s).
Qed.

Lemma shape_raise id o e :
  e ≠ InvalidStateError → decodes_then_finishes id o (raise e).
Proof.
  intros He s m. exists s. split; [apply attrs_frame_refl|]. left.
  split; [done|]. by exists e.
Qed.

Lemma shape_bind {A} id o (c : M A) (k : A → M unit) :
  framed decoded_names c → (∀ a, decodes_then_finishes id o (k a)) →
  decodes_then_finishes id o (c ≫= k).
Proof.
  intros Hc Hk s m. rewrite run_bind. destruct (Hc (s, m)) as [Hfr Hne].
  destruct (c (s, m)) as [[e|a] [s' m']] eqn:Hrun; simpl in *.
  - exists s'. split; [done|]. left. split; [done|].
    exists e. split; [done|]. congruence.
  - destruct (Hk a s' m') as (s2 & Hfr' & Hcase).
    exists s2. split; [|done]. by eapply attrs_frame_trans.
Qed.

Lemma shape_decode_open_order id o :
  decodes_then_finishes id o (decode_open_order id o).
Proof.
  unfold decode_open_order.
  apply shape_bind; [apply framed_read_order_head | intros _].
  apply shape_bind; [apply framed_read | intros c1].
  destruct (truthy c1); [by apply shape_raise|].
  apply shape_bind; [apply framed_read | intros c2].
  destruct (truthy c2); [by apply shape_raise|].
  apply shape_bind; [apply framed_read_order_middle | intros _].
  apply shape_bind; [apply framed_read | intros c3].
  destruct (truthy c3); [by apply shape_raise|].
  apply shape_bind; [apply framed_read_order_tail | intros _].
  apply shape_finish.
Qed.

Lemma handle_open_order_unfold p :
  _handle_open_order p =
  (order ← find_or_create_order (oo_order_id p);
   set_attrs order (open_order_assignments p);;
   decode_open_order (oo_order_id p) order).
Proof. reflexivity. Qed.

End Frames.

(** ** Futures and the correlation maps *)

Lemma getattr_invalid o n s : objs s !! o = None → getattr o n s = VNone.
Proof. intros H. unfold getattr. by rewrite H. Qed.

Lemma getattr_valid o n s : getattr o n s ≠ VNone → (o < length (objs s))%nat.
Proof.
  intros H. apply lookup_lt_is_Some. destruct (objs s !! o) eqn:E; [done|].
  by rewrite getattr_invalid in H.
Qed.

Lemma set_result_pending f r s :
  futs s !! f = Some Pending →
  set_result f r s = (inr tt, set_futs (<[f := Result r]> (futs s)) s).
Proof. intros H. unfold set_result. by rewrite H. Qed.

Lemma resolve_submitted_none id o s :
  submitted_future s !! id = None → resolve_submitted id o s = (inr tt, s).
Proof. intros H. unfold resolve_submitted. by rewrite H. Qed.

Lemma resolve_submitted_pending id o s f :
  submitted_future s !! id = Some f → futs s !! f = Some Pending →
  resolve_submitted id o s = (inr tt, retire id f (Result (ROrder o)) s).
Proof.
  intros H Hp. unfold resolve_submitted. rewrite H.
  unfold set_result. simpl. by rewrite Hp.
Qed.

Lemma handle_err_msg_none id c m s :
  submitted_future s !! id = None →
  _handle_err_msg id c m s =
  (inr tt, set_session_errors (session_errors s ++ [(id, c, m)]) s).
Proof. intros H. unfold _handle_err_msg. by rewrite H. Qed.

Lemma handle_err_msg_pending id c m s f :
  submitted_future s !! id = Some f → futs s !! f = Some Pending →
  _handle_err_msg id c m s = (inr tt, retire id f (Failed (ApiException c m)) s).
Proof.
  intros H Hp. unfold _handle_err_msg. rewrite H.
  unfold set_exception. simpl. by rewrite Hp.
Qed.

Lemma assign_order_id_rest order s :
  futs (assign_order_id order s) = futs s
  ∧ orders (assign_order_id order s) = orders s
  ∧ next_order_id (assign_order_id order s) = next_order_id s
  ∧ submitted_future (assign_order_id order s) = submitted_future s
  ∧ open_orders_future (assign_order_id order s) = open_orders_future s
  ∧ sent (assign_order_id order s) = sent s
  ∧ updated_log (assign_order_id order s) = updated_log s
  ∧ session_errors (assign_order_id order s) = session_errors s.
Proof.
  unfold assign_order_id. destruct (negb _); [apply setattr_rest | done].
Qed.

Lemma assign_order_id_length order s :
  length (objs (assign_order_id order s)) = length (objs s).
Proof.
  unfold assign_order_id. destruct (negb _); [apply setattr_length | done].
Qed.

Lemma place_order_run order s k :
  as_key (getattr order "order_id" (assign_order_id order s)) = Some k →
  place_order order s =
  (inr (length (futs s)),
   send_message (OutMsg PLACE_ORDER [VInt 45; VRef order])
     (register_placement k order (assign_order_id order s))).
Proof.
  intros Hk. unfold place_order, place_order_via. rewrite Hk.
  destruct (assign_order_id_rest order s) as (Hf & _).
  change (getattr order "order_id"
            (send_message (OutMsg PLACE_ORDER [VInt 45; VRef order])
               (register_placement k order (assign_order_id order s))))
    with (getattr order "order_id" (assign_order_id order s)).
  rewrite Hk. simpl. rewrite lookup_insert_eq. by rewrite Hf.
Qed.

Lemma place_order_type_error order s :
  as_key (getattr order "order_id" (assign_order_id order s)) = None →
  place_order order s = (inl TypeError, assign_order_id order s).
Proof. intros Hk. unfold place_order, place_order_via. by rewrite Hk. Qed.

(** ** The invariant holds in every reachable session *)

Lemma session_inv_init : session_inv init_session.
Proof. by constructor. Qed.

Lemma session_inv_same s s' :
  (∀ f x, futs s !! f = Some x → futs s' !! f = Some x) →
  orders s' = orders s →
  submitted_future s' = submitted_future s →
  open_orders_future s' = open_orders_future s →
  (length (objs s) ≤ length (objs s'))%nat →
  session_inv s → session_inv s'.
Proof.
  intros Hf Ho Hs Hop Hl [I1 I2 I3 I4 I5].
  constructor; rewrite ?Ho, ?Hs, ?Hop; eauto.
  - intros k o Hk. apply I1 in Hk. lia.
  - intros f Hopen. destruct (I5 f Hopen). eauto.
Qed.

Lemma session_inv_setattr o n v s : session_inv s → session_inv (setattr o n v s).
Proof.
  destruct (setattr_rest o n v s) as (Hf & ? & ? & ? & ? & _).
  apply session_inv_same; try done.
  - intros f x. by rewrite Hf.
  - by rewrite setattr_length.
Qed.

Lemma session_inv_setattrs o l s : session_inv s → session_inv (setattrs o l s).
Proof.
  revert s. induction l as [|[n v] l IH]; intros s Hs; [done|].
  rewrite setattrs_cons. by apply IH, session_inv_setattr.
Qed.

Lemma session_inv_frame names s s' :
  attrs_frame names s s' → session_inv s → session_inv s'.
Proof.
  intros [Hf ? ? ? ? ? ? ? Hl _]. apply session_inv_same; try done.
  - intros f x. by rewrite Hf.
  - by rewrite Hl.
Qed.

Lemma session_inv_new_object d s : session_inv s → session_inv (new_object d s).2.
Proof.
  apply session_inv_same; try done. simpl. rewrite length_app. lia.
Qed.

Lemma session_inv_retire k f x s :
  session_inv s → submitted_future s !! k = Some f → session_inv (retire k f x s).
Proof.
  intros [I1 I2 I3 I4 I5] Hk. constructor; simpl.
  - done.
  - intros k' f' Hk'. apply lookup_delete_Some in Hk' as [Hne Hk'].
    rewrite list_lookup_insert_ne; [eauto|].
    intros ->. apply Hne. eauto.
  - intros k1 k2 f' H1 H2.
    apply lookup_delete_Some in H1 as [_ H1].
    apply lookup_delete_Some in H2 as [_ H2]. eauto.
  - intros k' f' Hk'. apply lookup_delete_Some in Hk' as [_ Hk']. eauto.
  - intros f' Hopen. destruct (I5 f' Hopen) as [Hp Hno]. split.
    + rewrite list_lookup_insert_ne; [done|]. intros ->. by apply (Hno k).
    + intros k' Hk'. apply lookup_delete_Some in Hk' as [_ Hk']. by apply (Hno k').
Qed.

Lemma session_inv_register k order s :
  session_inv s → (order < length (objs s))%nat →
  session_inv (register_placement k order s).
Proof.
  intros [I1 I2 I3 I4 I5] Hlt. constructor; simpl.
  - intros k' o Hk'. apply lookup_insert_Some in Hk' as [[_ <-]|[_ Hk']]; eauto.
  - intros k' f Hk'. apply lookup_insert_Some in Hk' as [[_ <-]|[_ Hk']].
    + by rewrite lookup_app_r, Nat.sub_diag.
    + apply lookup_app_l_Some. eauto.
  - intros k1 k2 f H1 H2.
    apply lookup_insert_Some in H1 as [[E1 <-]|[N1 H1]];
      apply lookup_insert_Some in H2 as [[E2 E]|[N2 H2]].
    + congruence.
    + apply I2, lookup_lt_Some in H2. lia.
    + apply I2, lookup_lt_Some in H1. lia.
    + eauto.
  - intros k' f Hk'. destruct (decide (k = k')) as [->|Hne].
    + rewrite lookup_insert_eq. eauto.
    + rewrite lookup_insert_ne in Hk' by done.
      rewrite lookup_insert_ne by done. eauto.
  - intros f Hopen. destruct (I5 f Hopen) as [Hp Hno]. split.
    + by apply lookup_app_l_Some.
    + intros k' Hk'. apply lookup_insert_Some in Hk' as [[_ E]|[_ Hk']].
      * apply lookup_lt_Some in Hp. lia.
      * by apply (Hno k').
Qed.

Lemma session_inv_send m s : session_inv s → session_inv (send_message m s).
Proof. by apply session_inv_same. Qed.

Lemma session_inv_assign_order_id order s :
  session_inv s → session_inv (assign_order_id order s).
Proof.
  unfold assign_order_id. destruct (negb _); [apply session_inv_setattr | done].
Qed.

Lemma session_inv_place_order order s :
  session_inv s → session_inv (place_order order s).2.
Proof.
  intros Hs.
  destruct (as_key (getattr order "order_id" (assign_order_id order s)))
    as [k|] eqn:Hk.
  - rewrite (place_order_run _ _ _ Hk). simpl.
    apply session_inv_send, session_inv_register.
    + by apply session_inv_assign_order_id.
    + apply (getattr_valid order "order_id"). by destruct (getattr _ _ _).
  - rewrite (place_order_type_error _ _ Hk). simpl.
    by apply session_inv_assign_order_id.
Qed.

Lemma resolve_submitted_ok id o s :
  session_inv s →
  (resolve_submitted id o s).1 = inr tt ∧ session_inv (resolve_submitted id o s).2.
Proof.
  intros Hs. destruct (submitted_future s !! id) as [f|] eqn:Hf.
  - rewrite (resolve_submitted_pending id o s f Hf) by (by eapply inv_pending).
    split; [done|]. by apply session_inv_retire.
  - by rewrite resolve_submitted_none.
Qed.

Lemma session_inv_fire_updated o s : session_inv s → session_inv (fire_updated o s).
Proof. by apply session_inv_same. Qed.

Lemma handle_order_status_ok id p s :
  session_inv s →
  (_handle_order_status id p s).1 = inr tt
  ∧ session_inv (_handle_order_status id p s).2.
Proof.
  intros Hs. unfold _handle_order_status.
  destruct (orders s !! id) as [o|]; [|done].
  by apply resolve_submitted_ok, session_inv_fire_updated, session_inv_setattrs.
Qed.

Lemma handle_err_msg_ok id c m s :
  session_inv s →
  (_handle_err_msg id c m s).1 = inr tt ∧ session_inv (_handle_err_msg id c m s).2.
Proof.
  intros Hs. destruct (submitted_future s !! id) as [f|] eqn:Hf.
  - rewrite (handle_err_msg_pending id c m s f Hf) by (by eapply inv_pending).
    split; [done|]. by apply session_inv_retire.
  - rewrite handle_err_msg_none by done. split; [done|].
    revert Hs. by apply session_inv_same.
Qed.

Lemma session_inv_get_open_orders s :
  session_inv s → session_inv (get_open_orders s).2.
Proof.
  intros Hs. unfold get_open_orders.
  destruct (open_orders_future s) as [f|] eqn:Hopen; simpl.
  - by apply session_inv_send.
  - apply session_inv_send. destruct Hs as [I1 I2 I3 I4 I5]. constructor; simpl; eauto.
    + intros k f Hk. apply lookup_app_l_Some. eauto.
    + intros f [= <-]. split.
      * by rewrite lookup_app_r, Nat.sub_diag.
      * intros k Hk. apply I2, lookup_lt_Some in Hk. lia.
Qed.

Lemma session_inv_open_order_end s :
  session_inv s → session_inv (_handle_open_order_end s).2.
Proof.
  intros Hs. unfold _handle_open_order_end.
  destruct (open_orders_future s) as [f|] eqn:Hopen; [|done].
  destruct (inv_open s Hs f Hopen) as [Hp Hno].
  rewrite set_result_pending by done. simpl.
  destruct Hs as [I1 I2 I3 I4 I5]. constructor; simpl; eauto; [|done].
  intros k f' Hk. rewrite list_lookup_insert_ne; [eauto|].
  intros ->. by apply (Hno k).
Qed.

Lemma session_inv_wrap_immediate_future o s :
  session_inv s → session_inv (wrap_immediate_future o s).2.
Proof.
  apply session_inv_same; try done. simpl. intros f x. apply lookup_app_l_Some.
Qed.

Lemma finish_result_ok id o s :
  session_inv s →
  (finish_result id o s).1 = inr tt ∧ session_inv (finish_result id o s).2.
Proof.
  intros Hs. unfold finish_result.
  destruct (resolve_submitted_ok id o s Hs) as [Hr Hi].
  destruct (resolve_submitted id o s) as [[e|[]] s']; [done|].
  split; [done|]. by apply session_inv_fire_updated.
Qed.

Section Reachability.
Context {env : Environment}.

Lemma session_inv_find_or_create id s :
  session_inv s → session_inv (find_or_create id s).2.
Proof.
  intros Hs. unfold find_or_create. destruct (orders s !! id) eqn:Ho; [done|].
  simpl. apply session_inv_setattr.
  destruct Hs as [I1 I2 I3 I4 I5]. constructor; simpl; eauto.
  - intros k o Hk. rewrite length_app. simpl.
    apply lookup_insert_Some in Hk as [[_ <-]|[_ Hk]]; [lia|].
    apply I1 in Hk. lia.
  - intros k f Hk. destruct (decide (id = k)) as [->|Hne].
    + by rewrite lookup_insert_eq.
    + rewrite lookup_insert_ne by done. eauto.
Qed.

Lemma find_or_create_order_run id s m :
  find_or_create_order id (s, m) =
  (inr (find_or_create id s).1, ((find_or_create id s).2, m)).
Proof.
  unfold find_or_create_order. cbn [fst snd].
  by destruct (find_or_create id s).
Qed.

(** The handler is its decoder, run on the order it found or made. *)
Lemma handle_open_order_eq p s m :
  _handle_open_order p (s, m) =
  decode_open_order (oo_order_id p) (find_or_create (oo_order_id p) s).1
    (setattrs (find_or_create (oo_order_id p) s).1 (open_order_assignments p)
       (find_or_create (oo_order_id p) s).2, m).
Proof.
  rewrite handle_open_order_unfold, run_bind, find_or_create_order_run.
  cbv beta iota. rewrite run_bind. reflexivity.
Qed.

(** How a run of [_handle_open_order] ends, on the session. *)
Lemma handle_open_order_run p s m :
  ∃ s2,
    attrs_frame decoded_names
      (setattrs (find_or_create (oo_order_id p) s).1 (open_order_assignments p)
         (find_or_create (oo_order_id p) s).2) s2
    ∧ (((_handle_open_order p (s, m)).2.1 = s2
        ∧ ∃ e, (_handle_open_order p (s, m)).1 = inl e ∧ e ≠ InvalidStateError)
       ∨ ((_handle_open_order p (s, m)).1, (_handle_open_order p (s, m)).2.1)
         = finish_result (oo_order_id p) (find_or_create (oo_order_id p) s).1 s2).
Proof.
  rewrite handle_open_order_eq.
  apply shape_decode_open_order.
Qed.

Lemma handle_open_order_ok p s m :
  session_inv s →
  (_handle_open_order p (s, m)).1 ≠ inl InvalidStateError
  ∧ session_inv (_handle_open_order p (s, m)).2.1.
Proof.
  intros Hs. destruct (handle_open_order_run p s m) as (s2 & Hfr & Hcase).
  assert (session_inv s2) as Hs2.
  { eapply session_inv_frame; [exact Hfr|].
    by apply session_inv_setattrs, session_inv_find_or_create. }
  destruct Hcase as [[-> (e & -> & He)]|Hfin].
  - split; [congruence | done].
  - destruct (finish_result_ok (oo_order_id p)
                (find_or_create (oo_order_id p) s).1 s2 Hs2) as [Hr Hi].
    rewrite <- Hfin in Hr, Hi. cbn [fst snd] in Hr, Hi.
    split; [by rewrite Hr | done].
Qed.

Lemma create_market_order_eq instrument quantity action tif place s :
  create_market_order instrument quantity action tif place s =
  let order := length (objs s) in
  let s4 :=
    setattrs order
      [ ("instrument", instrument); ("order_type", OrderType_Market);
        ("time_in_force", tif);
        ("action", match action with
                   | None => if gt_zero quantity then Action_Buy else Action_Sell
                   | Some a => a
                   end);
        ("total_quantity", match action with
                           | None => py_abs quantity
                           | Some _ => quantity
                           end) ]
      (new_object Order_init s).2 in
  if place then place_order order s4
  else (inr (wrap_immediate_future order s4).1, (wrap_immediate_future order s4).2).
Proof. by destruct action, place. Qed.

Lemma create_limit_order_eq instrument quantity limit action tif place s :
  create_limit_order instrument quantity limit action tif place s =
  let order := length (objs s) in
  let s5 :=
    setattrs order
      [ ("instrument", instrument); ("order_type", OrderType_Limit);
        ("limit_price", limit); ("time_in_force", tif);
        ("action", match action with
                   | None => if gt_zero quantity then Action_Buy else Action_Sell
                   | Some a => a
                   end);
        ("total_quantity", match action with
                           | None => py_abs quantity
                           | Some _ => quantity
                           end) ]
      (new_object Order_init s).2 in
  if place then place_order order s5
  else (inr (wrap_immediate_future order s5).1, (wrap_immediate_future order s5).2).
Proof. by destruct action, place. Qed.

Lemma session_inv_composed s o l :
  session_inv s → session_inv (setattrs o l (new_object Order_init s).2).
Proof. intros Hs. by apply session_inv_setattrs, session_inv_new_object. Qed.

Lemma session_inv_run_op a s : session_inv s → session_inv (run_op a s).
Proof.
  intros Hs. destruct a; simpl.
  - by apply session_inv_new_object.
  - by apply session_inv_setattr.
  - by apply session_inv_place_order.
  - rewrite create_market_order_eq. cbv zeta. destruct place.
    + by apply session_inv_place_order, session_inv_composed.
    + by apply session_inv_wrap_immediate_future, session_inv_composed.
  - rewrite create_limit_order_eq. cbv zeta. destruct place.
    + by apply session_inv_place_order, session_inv_composed.
    + by apply session_inv_wrap_immediate_future, session_inv_composed.
  - by apply session_inv_get_open_orders.
  - by apply session_inv_open_order_end.
  - by apply handle_order_status_ok.
  - by apply handle_open_order_ok.
  - revert Hs. by apply session_inv_same.
  - by apply handle_err_msg_ok.
Qed.

Lemma session_inv_run_ops l s : session_inv s → session_inv (run_ops l s).
Proof.
  revert s. induction l as [|a l IH]; intros s Hs; [done|].
  simpl. by apply IH, session_inv_run_op.
Qed.

Lemma reachable_inv s : reachable s → session_inv s.
Proof. intros [l ->]. apply session_inv_run_ops, session_inv_init. Qed.

End Reachability.

(** ** A future no slot refers to is never completed *)

Lemma orphaned_same f s s' :
  (∀ x, futs s !! f = Some x → futs s' !! f = Some x) →
  submitted_future s' = submitted_future s →
  open_orders_future s' = open_orders_future s →
  orphaned f s → orphaned f s'.
Proof.
  intros Hf Hs Hop (Hp & Hno & Hopen). unfold orphaned.
  rewrite Hs, Hop. auto.
Qed.

Lemma orphaned_setattr f o n v s : orphaned f s → orphaned f (setattr o n v s).
Proof.
  destruct (setattr_rest o n v s) as (Hf & _ & _ & ? & ? & _).
  apply orphaned_same; try done. intros x. by rewrite Hf.
Qed.

Lemma orphaned_setattrs f o l s : orphaned f s → orphaned f (setattrs o l s).
Proof.
  revert s. induction l as [|[n v] l IH]; intros s Hs; [done|].
  rewrite setattrs_cons. by apply IH, orphaned_setattr.
Qed.

Lemma orphaned_frame names f s s' :
  attrs_frame names s s' → orphaned f s → orphaned f s'.
Proof.
  intros [Hf ? ? ? ? ? ? ? _ _]. apply orphaned_same; try done.
  intros x. by rewrite Hf.
Qed.

Lemma orphaned_register f k order s :
  orphaned f s → orphaned f (register_placement k order s).
Proof.
  intros (Hp & Hno & Hopen). repeat split; simpl.
  - by apply lookup_app_l_Some.
  - intros k' Hk'. apply lookup_insert_Some in Hk' as [[_ E]|[_ Hk']].
    + apply lookup_lt_Some in Hp. lia.
    + by apply (Hno k').
  - done.
Qed.

Lemma orphaned_complete f f' x s :
  f' ≠ f → orphaned f s → orphaned f (set_futs (<[f' := x]> (futs s)) s).
Proof.
  intros Hne (Hp & Hno & Hopen). repeat split; simpl; try done.
  by rewrite list_lookup_insert_ne.
Qed.

Lemma orphaned_delete f k s :
  orphaned f s → orphaned f (set_submitted_future (delete k (submitted_future s)) s).
Proof.
  intros (Hp & Hno & Hopen). repeat split; simpl; try done.
  intros k' Hk'. apply lookup_delete_Some in Hk' as [_ Hk']. by apply (Hno k').
Qed.

Lemma orphaned_resolve_submitted f id o s :
  orphaned f s → orphaned f (resolve_submitted id o s).2.
Proof.
  intros Hs. unfold resolve_submitted.
  destruct (submitted_future s !! id) as [f'|] eqn:Hf'; [|done].
  assert (f' ≠ f) as Hne by (intros ->; by apply (proj1 (proj2 Hs) id)).
  unfold set_result. simpl.
  destruct (futs s !! f') as [[]|]; simpl; try by apply orphaned_delete.
  by apply (orphaned_complete f f' _ (set_submitted_future _ s)), orphaned_delete.
Qed.

Lemma orphaned_err_msg f id c m s :
  orphaned f s → orphaned f (_handle_err_msg id c m s).2.
Proof.
  intros Hs. unfold _handle_err_msg.
  destruct (submitted_future s !! id) as [f'|] eqn:Hf'.
  - assert (f' ≠ f) as Hne by (intros ->; by apply (proj1 (proj2 Hs) id)).
    unfold set_exception. simpl.
    destruct (futs s !! f') as [[]|]; simpl; try by apply orphaned_delete.
    by apply (orphaned_complete f f' _ (set_submitted_future _ s)), orphaned_delete.
  - revert Hs. by apply orphaned_same.
Qed.

Lemma orphaned_assign_order_id f order s :
  orphaned f s → orphaned f (assign_order_id order s).
Proof.
  unfold assign_order_id. destruct (negb _); [apply orphaned_setattr | done].
Qed.

Lemma orphaned_place_order f order s :
  orphaned f s → orphaned f (place_order order s).2.
Proof.
  intros Hs.
  destruct (as_key (getattr order "order_id" (assign_order_id order s)))
    as [k|] eqn:Hk.
  - rewrite (place_order_run _ _ _ Hk). simpl.
    apply orphaned_same with (s := register_placement k order (assign_order_id order s));
      try done.
    by apply orphaned_register, orphaned_assign_order_id.
  - rewrite (place_order_type_error _ _ Hk). by apply orphaned_assign_order_id.
Qed.

Lemma orphaned_fire_updated f o s : orphaned f s → orphaned f (fire_updated o s).
Proof. by apply orphaned_same. Qed.

Lemma orphaned_status f id p s :
  orphaned f s → orphaned f (_handle_order_status id p s).2.
Proof.
  intros Hs. unfold _handle_order_status.
  destruct (orders s !! id) as [o|]; [|done].
  by apply orphaned_resolve_submitted, orphaned_fire_updated, orphaned_setattrs.
Qed.

Lemma orphaned_get_open_orders f s :
  orphaned f s → orphaned f (get_open_orders s).2.
Proof.
  intros (Hp & Hno & Hopen). unfold get_open_orders.
  destruct (open_orders_future s) as [f'|] eqn:E; repeat split; simpl; try done.
  - by rewrite E.
  - by apply lookup_app_l_Some.
  - intros [= E']. apply lookup_lt_Some in Hp. lia.
Qed.

Lemma orphaned_open_order_end f s :
  orphaned f s → orphaned f (_handle_open_order_end s).2.
Proof.
  intros Hs. unfold _handle_open_order_end.
  destruct (open_orders_future s) as [f'|] eqn:E; [|exact Hs].
  unfold set_result. destruct (futs s !! f') as [[]|]; simpl; try exact Hs.
  destruct Hs as (Hp & Hno & Hopen). repeat split; simpl; try done.
  rewrite list_lookup_insert_ne; [done|]. intros ->. by rewrite E in Hopen.
Qed.

Lemma orphaned_finish_result f id o s :
  orphaned f s → orphaned f (finish_result id o s).2.
Proof.
  intros Hs. unfold finish_result.
  pose proof (orphaned_resolve_submitted f id o s Hs) as Hr.
  destruct (resolve_submitted id o s) as [[e|[]] s']; [done|].
  revert Hr. by apply orphaned_same.
Qed.

Section Orphans.
Context {env : Environment}.

Lemma orphaned_find_or_create f id s :
  orphaned f s → orphaned f (find_or_create id s).2.
Proof.
  intros Hs. unfold find_or_create. destruct (orders s !! id); [done|].
  simpl. apply orphaned_setattr. revert Hs. by apply orphaned_same.
Qed.

Lemma orphaned_handle_open_order f p s m :
  orphaned f s → orphaned f (_handle_open_order p (s, m)).2.1.
Proof.
  intros Hs. destruct (handle_open_order_run p s m) as (s2 & Hfr & Hcase).
  assert (orphaned f s2) as Hs2.
  { eapply orphaned_frame; [exact Hfr|].
    by apply orphaned_setattrs, orphaned_find_or_create. }
  destruct Hcase as [[-> _]|Hfin]; [done|].
  pose proof (orphaned_finish_result f (oo_order_id p)
                (find_or_create (oo_order_id p) s).1 s2 Hs2) as Hr.
  rewrite <- Hfin in Hr. exact Hr.
Qed.

Lemma orphaned_composed f s o l :
  orphaned f s → orphaned f (setattrs o l (new_object Order_init s).2).
Proof.
  intros Hs. apply orphaned_setattrs. revert Hs. by apply orphaned_same.
Qed.

Lemma orphaned_wrap f o s : orphaned f s → orphaned f (wrap_immediate_future o s).2.
Proof.
  intros (Hp & Hno & Hopen). repeat split; simpl; try done.
  by apply lookup_app_l_Some.
Qed.

Lemma orphaned_run_op f a s : orphaned f s → orphaned f (run_op a s).
Proof.
  intros Hs. destruct a; simpl.
  - revert Hs. by apply orphaned_same.
  - by apply orphaned_setattr.
  - by apply orphaned_place_order.
  - rewrite create_market_order_eq. cbv zeta. destruct place.
    + by apply orphaned_place_order, orphaned_composed.
    + by apply orphaned_wrap, orphaned_composed.
  - rewrite create_limit_order_eq. cbv zeta. destruct place.
    + by apply orphaned_place_order, orphaned_composed.
    + by apply orphaned_wrap, orphaned_composed.
  - by apply orphaned_get_open_orders.
  - by apply orphaned_open_order_end.
  - by apply orphaned_status.
  - by apply orphaned_handle_open_order.
  - revert Hs. by apply orphaned_same.
  - by apply orphaned_err_msg.
Qed.

Lemma orphaned_run_ops f l s : orphaned f s → orphaned f (run_ops l s).
Proof.
  revert s. induction l as [|a l IH]; intros s Hs; [done|].
  simpl. by apply IH, orphaned_run_op.
Qed.

End Orphans.

(** ** Unsupported sections of an open-order push *)

Section UnsupportedFeatures.
Context {env : Environment}.

Lemma bind_prefix {A B C} (c : M A) (f : A → M B) (g : A → M C) (h : B → M C) st :
  (∀ a st', g a st' = (f a ≫= h) st') →
  (c ≫= g) st = ((c ≫= f) ≫= h) st.
Proof.
  intros Hg. rewrite !run_bind. destruct (c st) as [[e|a] st']; [done|].
  by rewrite Hg, run_bind.
Qed.

Lemma handle_open_order_cut_1 p st :
  _handle_open_order p st = (upto_combo_legs p ≫= on_combo_legs p) st.
Proof.
  unfold _handle_open_order, upto_combo_legs.
  apply bind_prefix. intros order st1.
  apply bind_prefix. intros _ st2.
  apply bind_prefix. intros _ st3.
  apply bind_prefix. intros c st4.
  reflexivity.
Qed.

Lemma handle_open_order_cut_2 p st :
  _handle_open_order p st = (upto_order_combo_legs p ≫= on_order_combo_legs p) st.
Proof.
  rewrite handle_open_order_cut_1. unfold upto_order_combo_legs.
  apply bind_prefix. intros [order c] st1.
  unfold on_combo_legs. cbn [fst snd]. destruct (truthy c); [done|].
  apply bind_prefix. intros c2 st2. reflexivity.
Qed.

Lemma handle_open_order_cut_3 p st :
  _handle_open_order p st = (upto_conditions p ≫= on_conditions p) st.
Proof.
  rewrite handle_open_order_cut_2. unfold upto_conditions.
  apply bind_prefix. intros [order c] st1.
  unfold on_order_combo_legs. cbn [fst snd]. destruct (truthy c); [done|].
  apply bind_prefix. intros _ st2.
  apply bind_prefix. intros c3 st3. reflexivity.
Qed.

(** C2: when one of the three presence counts (combo legs, order combo
    legs, order conditions) is read from an open-order push as a nonzero
    number, the handler raises [UnsupportedFeature] naming that feature, and
    the session and the message are left exactly as they were when the
    count had been read: no later field is read, none is applied. *)
Theorem unsupported_feature_fails_fast
    (c : presence_count) (p : open_order_push) (st st1 : session * IncomingMessage)
    (order : loc) (n : Z) :
  upto c p st = (inr (order, VInt n), st1) →
  n ≠ 0 →
  _handle_open_order p st = (inl (UnsupportedFeature (feature_name c)), st1).
Proof.
  intros Hrun Hn.
  assert (truthy (VInt n) = true) as Ht.
  { simpl. by destruct (Z.eqb_spec n 0). }
  destruct c; simpl in Hrun.
  - rewrite handle_open_order_cut_1, run_bind, Hrun.
    unfold on_combo_legs. cbn [fst snd]. by rewrite Ht.
  - rewrite handle_open_order_cut_2, run_bind, Hrun.
    unfold on_order_combo_legs. cbn [fst snd]. by rewrite Ht.
  - rewrite handle_open_order_cut_3, run_bind, Hrun.
    unfold on_conditions. cbn [fst snd]. by rewrite Ht.
Qed.

End UnsupportedFeatures.

Lemma unsupported_feature_fails_fast_witness :
  @_handle_open_order sample_env (sample_push 5)
    (init_session, sample_message 35 "1")
  = (inl (UnsupportedFeature "combo legs"),
     (@upto sample_env ComboLegs (sample_push 5)
        (init_session, sample_message 35 "1")).2).
Proof.
  apply (@unsupported_feature_fails_fast sample_env ComboLegs (sample_push 5)
           (init_session, sample_message 35 "1") _ 0%nat 1); [|lia].
  rewrite (surjective_pairing
             (@upto sample_env ComboLegs (sample_push 5)
                (init_session, sample_message 35 "1"))) at 1.
  apply (f_equal2 pair); [vm_compute; reflexivity | reflexivity].
Defined.

(** ** The two pushes on one order *)

Lemma resolve_submitted_objs id o s :
  objs (resolve_submitted id o s).2 = objs s
  ∧ orders (resolve_submitted id o s).2 = orders s.
Proof.
  unfold resolve_submitted. destruct (submitted_future s !! id) as [f|]; [|done].
  unfold set_result. simpl. by destruct (futs s !! f) as [[]|].
Qed.

Lemma finish_result_objs id o s :
  objs (finish_result id o s).2 = objs s
  ∧ orders (finish_result id o s).2 = orders s.
Proof.
  unfold finish_result. pose proof (resolve_submitted_objs id o s) as H.
  by destruct (resolve_submitted id o s) as [[e|[]] s'].
Qed.

Lemma finish_result_none id o s :
  submitted_future s !! id = None →
  finish_result id o s = (inr tt, fire_updated o s).
Proof. intros H. unfold finish_result. by rewrite resolve_submitted_none. Qed.

Lemma handle_order_status_unknown id p s :
  orders s !! id = None → _handle_order_status id p s = (inr tt, s).
Proof. intros H. unfold _handle_order_status. by rewrite H. Qed.

Lemma handle_order_status_found id p s o :
  orders s !! id = Some o →
  _handle_order_status id p s =
  resolve_submitted id o (fire_updated o (setattrs o (status_assignments p) s)).
Proof. intros H. unfold _handle_order_status. by rewrite H. Qed.

Lemma handle_order_status_resolves id p s o f :
  orders s !! id = Some o →
  submitted_future s !! id = Some f →
  futs s !! f = Some Pending →
  _handle_order_status id p s =
  (inr tt,
   retire id f (Result (ROrder o))
     (fire_updated o (setattrs o (status_assignments p) s))).
Proof.
  intros Ho Hf Hp. rewrite (handle_order_status_found _ _ _ _ Ho).
  apply resolve_submitted_pending.
  - by rewrite fire_updated_submitted_future, setattrs_submitted_future.
  - by rewrite fire_updated_futs, setattrs_futs.
Qed.

Lemma status_names_nodup p : NoDup (status_assignments p).*1.
Proof. apply (bool_decide_unpack _). vm_compute. exact I. Qed.

Lemma open_order_names_nodup q : NoDup (open_order_assignments q).*1.
Proof. apply (bool_decide_unpack _). vm_compute. exact I. Qed.

Lemma assigned_not_decoded q n v :
  (n, v) ∈ open_order_assignments q → n ∉ decoded_names.
Proof.
  intros Hin.
  assert (Forall (λ x, x ∉ decoded_names) (open_order_assignments q).*1) as Hall.
  { apply (bool_decide_unpack _). vm_compute. exact I. }
  rewrite Forall_forall in Hall. apply Hall.
  by apply (list_elem_of_fmap_2 fst) in Hin.
Qed.

Section TwoPushes.
Context {env : Environment}.

Lemma find_or_create_known id s o :
  orders s !! id = Some o → find_or_create id s = (o, s).
Proof. intros H. unfold find_or_create. by rewrite H. Qed.

(** An open-order push for an order the map already holds, while no
    placement future is pending under its id. *)
Lemma handle_open_order_known q s m o :
  orders s !! oo_order_id q = Some o →
  (o < length (objs s))%nat →
  submitted_future s !! oo_order_id q = None →
  (_handle_open_order q (s, m)).1 ≠ inl InvalidStateError
  ∧ futs (_handle_open_order q (s, m)).2.1 = futs s
  ∧ submitted_future (_handle_open_order q (s, m)).2.1 = submitted_future s
  ∧ orders (_handle_open_order q (s, m)).2.1 = orders s
  ∧ (∀ n v, (n, v) ∈ open_order_assignments q →
       getattr o n (_handle_open_order q (s, m)).2.1 = v).
Proof.
  intros Ho Hlt Hnone.
  destruct (handle_open_order_run q s m) as (s2 & Hfr & Hcase).
  rewrite (find_or_create_known _ _ _ Ho) in Hfr, Hcase. cbn [fst snd] in Hfr, Hcase.
  destruct Hfr as [Hf Hor _ Hsub _ _ _ _ _ Hattrs].
  rewrite setattrs_futs in Hf. rewrite setattrs_orders in Hor.
  rewrite setattrs_submitted_future in Hsub.
  assert (∀ n v, (n, v) ∈ open_order_assignments q → getattr o n s2 = v) as Hpos.
  { intros n v Hin. rewrite Hattrs by (by eapply assigned_not_decoded).
    apply getattr_setattrs_in; [apply open_order_names_nodup | done | done]. }
  destruct Hcase as [[-> (e & -> & He)]|Hfin].
  - repeat split; try done. congruence.
  - rewrite finish_result_none in Hfin by (by rewrite Hsub).
    remember (_handle_open_order q (s, m)) as r eqn:Hr. clear Hr.
    destruct r as [r1 [s' m']]. cbn [fst snd] in *.
    injection Hfin as -> ->. repeat split; try done.
Qed.

(** C1: for an order id with a pending placement future, a status push and
    then an open-order push for that id resolve the future exactly once: the
    status push resolves it with the order, whose fields then hold that
    push's data, and retires it; the open-order push neither resolves nor
    fails any future (and does not crash on a double resolve) but still
    writes its fields into the same order record. *)
Theorem status_then_open_order_resolves_once
    (s : session) (f : loc) (p : status_push) (q : open_order_push)
    (m : IncomingMessage) :
  reachable s →
  submitted_future s !! oo_order_id q = Some f →
  ∃ order,
    orders s !! oo_order_id q = Some order
    ∧ futs s !! f = Some Pending
    ∧ (_handle_order_status (oo_order_id q) p s).1 = inr tt
    ∧ futs (_handle_order_status (oo_order_id q) p s).2 !! f
      = Some (Result (ROrder order))
    ∧ submitted_future (_handle_order_status (oo_order_id q) p s).2
        !! oo_order_id q = None
    ∧ (∀ n v, (n, v) ∈ status_assignments p →
         getattr order n (_handle_order_status (oo_order_id q) p s).2 = v)
    ∧ (_handle_open_order q ((_handle_order_status (oo_order_id q) p s).2, m)).1
      ≠ inl InvalidStateError
    ∧ futs (_handle_open_order q
              ((_handle_order_status (oo_order_id q) p s).2, m)).2.1
      = futs (_handle_order_status (oo_order_id q) p s).2
    ∧ orders (_handle_open_order q
                ((_handle_order_status (oo_order_id q) p s).2, m)).2.1
        !! oo_order_id q = Some order
    ∧ (∀ n v, (n, v) ∈ open_order_assignments q →
         getattr order n
           (_handle_open_order q
              ((_handle_order_status (oo_order_id q) p s).2, m)).2.1 = v).
Proof.
  intros Hreach Hf. apply reachable_inv in Hreach as Hinv.
  destruct (inv_known s Hinv _ _ Hf) as [order Ho].
  pose proof (inv_pending s Hinv _ _ Hf) as Hp.
  pose proof (inv_orders s Hinv _ _ Ho) as Hlt.
  exists order. split; [done|]. split; [done|].
  rewrite (handle_order_status_resolves _ p _ _ _ Ho Hf Hp). cbn [fst snd].
  remember (retire (oo_order_id q) f (Result (ROrder order))
              (fire_updated order (setattrs order (status_assignments p) s)))
    as s1 eqn:Hs1.
  assert (orders s1 = orders s) as Hor
    by (rewrite Hs1; by autorewrite with session).
  assert (length (objs s1) = length (objs s)) as Hlen
    by (rewrite Hs1; by autorewrite with session).
  assert (futs s1 = <[f := Result (ROrder order)]> (futs s)) as Hfs
    by (rewrite Hs1; by autorewrite with session).
  assert (submitted_future s1 = delete (oo_order_id q) (submitted_future s))
    as Hsub1 by (rewrite Hs1; by autorewrite with session).
  assert (∀ n, getattr order n s1
               = getattr order n (setattrs order (status_assignments p) s))
    as Hget by (intros n; rewrite Hs1; by autorewrite with session).
  clear Hs1.
  split; [done|]. split.
  { rewrite Hfs. apply list_lookup_insert_eq. by eapply lookup_lt_Some. }
  split; [rewrite Hsub1; apply lookup_delete_eq|]. split.
  { intros n v Hin. rewrite Hget.
    apply getattr_setattrs_in; [apply status_names_nodup | done | done]. }
  destruct (handle_open_order_known q s1 m order) as (H1 & H2 & H3 & H4 & H5).
  { by rewrite Hor. }
  { by rewrite Hlen. }
  { rewrite Hsub1. apply lookup_delete_eq. }
  repeat split; try done. by rewrite H4, Hor.
Qed.

(** C3 (as amended): a status push for an order id the order map does not
    hold is ignored: nothing is created and the session is unchanged.  An
    open-order push for such an id synthesizes a new order record whatever
    the outcome of the decoding: the record is registered under the id,
    holds the push's positional fields (the id among them), and every
    attribute the handler never assigns is as the constructor left it. *)
Theorem unknown_order_id_materialization
    (s : session) (p : status_push) (q : open_order_push) (m : IncomingMessage) :
  orders s !! oo_order_id q = None →
  _handle_order_status (oo_order_id q) p s = (inr tt, s)
  ∧ orders (_handle_open_order q (s, m)).2.1 !! oo_order_id q
    = Some (length (objs s))
  ∧ length (objs (_handle_open_order q (s, m)).2.1) = S (length (objs s))
  ∧ (∀ n v, (n, v) ∈ open_order_assignments q →
       getattr (length (objs s)) n (_handle_open_order q (s, m)).2.1 = v)
  ∧ (∀ n, n ∉ (open_order_assignments q).*1 → n ∉ decoded_names →
       getattr (length (objs s)) n (_handle_open_order q (s, m)).2.1
       = default VNone (Order_init !! n)).
Proof.
  intros Hnone. split; [by apply handle_order_status_unknown|].
  destruct (handle_open_order_run q s m) as (s2 & Hfr & Hcase).
  set (o := length (objs s)) in *.
  set (s0 := setattr o "order_id" (VInt (oo_order_id q))
               (set_orders (<[oo_order_id q := o]> (orders s))
                  (set_objs (objs s ++ [Order_init]) s))).
  assert (find_or_create (oo_order_id q) s = (o, s0)) as Hfc.
  { unfold find_or_create. by rewrite Hnone. }
  rewrite Hfc in Hfr, Hcase. cbn [fst snd] in Hfr, Hcase.
  assert (length (objs s0) = S (length (objs s))) as Hlen0.
  { subst s0. rewrite setattr_length. simpl. rewrite length_app. simpl. lia. }
  assert (orders s0 !! oo_order_id q = Some o) as Hor0.
  { subst s0. rewrite (proj1 (proj2 (setattr_rest _ _ _ _))). simpl.
    apply lookup_insert_eq. }
  destruct Hfr as [_ Hor _ _ _ _ _ _ Hlen Hattrs].
  rewrite setattrs_orders in Hor. rewrite setattrs_length in Hlen.
  assert (∀ n v, (n, v) ∈ open_order_assignments q → getattr o n s2 = v) as Hpos.
  { intros n v Hin. rewrite Hattrs by (by eapply assigned_not_decoded).
    apply getattr_setattrs_in; [apply open_order_names_nodup | done |].
    rewrite Hlen0. subst o. lia. }
  assert (∀ n, n ∉ (open_order_assignments q).*1 → n ∉ decoded_names →
            getattr o n s2 = default VNone (Order_init !! n)) as Hrest.
  { intros n Hn Hd. rewrite Hattrs by done.
    rewrite getattr_setattrs_notin by done.
    subst s0. rewrite getattr_setattr_ne.
    - unfold getattr. simpl. subst o.
      by rewrite lookup_app_r, Nat.sub_diag.
    - intros ->. apply Hn. simpl. apply list_elem_of_here. }
  assert (objs (_handle_open_order q (s, m)).2.1 = objs s2
          ∧ orders (_handle_open_order q (s, m)).2.1 = orders s2) as [Hobjs Hords].
  { destruct Hcase as [[-> _]|Hfin]; [done|].
    pose proof (finish_result_objs (oo_order_id q) o s2) as Hfo.
    rewrite <- Hfin in Hfo. exact Hfo. }
  rewrite Hords, Hor, Hobjs, Hlen, Hlen0.
  split; [done|]. split; [done|]. split.
  - intros n v Hin. rewrite (getattr_objs _ _ s2) by done. by apply Hpos.
  - intros n Hn Hd. rewrite (getattr_objs _ _ s2) by done. by apply Hrest.
Qed.

End TwoPushes.

(** ** Placement: allocation, registration, transmission *)

Ltac in_list :=
  repeat first [apply list_elem_of_here | apply list_elem_of_further].

Lemma place_order_allocates order s :
  (order < length (objs s))%nat →
  truthy (getattr order "order_id" s) = false →
  place_order order s =
  (inr (length (futs s)),
   send_message (OutMsg PLACE_ORDER [VInt 45; VRef order])
     (register_placement (next_order_id s) order
        (setattr order "order_id" (VInt (next_order_id s)) s))).
Proof.
  intros Hlt Hfalsy.
  assert (assign_order_id order s
          = setattr order "order_id" (VInt (next_order_id s)) s) as Ha.
  { unfold assign_order_id. by rewrite Hfalsy. }
  rewrite (place_order_run order s (next_order_id s)); rewrite Ha; [done|].
  by rewrite getattr_setattr_eq.
Qed.

Lemma place_order_keeps order s k :
  truthy (getattr order "order_id" s) = true →
  as_key (getattr order "order_id" s) = Some k →
  place_order order s =
  (inr (length (futs s)),
   send_message (OutMsg PLACE_ORDER [VInt 45; VRef order])
     (register_placement k order s)).
Proof.
  intros Htruthy Hk.
  assert (assign_order_id order s = s) as Ha.
  { unfold assign_order_id. by rewrite Htruthy. }
  rewrite (place_order_run order s k); by rewrite Ha.
Qed.

Lemma registered_getattr o n m k order s :
  getattr o n (send_message m (register_placement k order s)) = getattr o n s.
Proof. reflexivity. Qed.

Lemma registered_lookup m k order s :
  orders (send_message m (register_placement k order s)) !! k = Some order
  ∧ submitted_future (send_message m (register_placement k order s)) !! k
    = Some (length (futs s))
  ∧ futs (send_message m (register_placement k order s)) !! length (futs s)
    = Some Pending
  ∧ sent (send_message m (register_placement k order s)) = (sent s ++ [m])%list
  ∧ next_order_id (send_message m (register_placement k order s))
    = next_order_id s.
Proof.
  simpl. rewrite !lookup_insert_eq.
  by rewrite lookup_app_r, Nat.sub_diag.
Qed.

(** C7: in a [place_order] call the order is stored in the order map and a
    pending future is registered under the order's id before anything is
    handed to the transport: whatever the transport is, the session it
    receives already holds both and has sent nothing yet; so a status push
    delivered right after the transmission finds the future and resolves
    the very future that [place_order] returned. *)
Theorem registration_precedes_transmission
    (transmit : out_msg → session → session) (order : loc) (s : session)
    (k : Z) (p : status_push) :
  as_key (getattr order "order_id" (assign_order_id order s)) = Some k →
  orders (register_placement k order (assign_order_id order s)) !! k = Some order
  ∧ submitted_future (register_placement k order (assign_order_id order s)) !! k
    = Some (length (futs s))
  ∧ futs (register_placement k order (assign_order_id order s)) !! length (futs s)
    = Some Pending
  ∧ sent (register_placement k order (assign_order_id order s)) = sent s
  ∧ (place_order_via transmit order s).2
    = transmit (OutMsg PLACE_ORDER [VInt 45; VRef order])
        (register_placement k order (assign_order_id order s))
  ∧ (place_order order s).1 = inr (length (futs s))
  ∧ futs (_handle_order_status k p (place_order order s).2).2 !! length (futs s)
    = Some (Result (ROrder order)).
Proof.
  intros Hk.
  destruct (assign_order_id_rest order s) as (Hf & _ & _ & _ & _ & Hsent & _).
  split; [simpl; apply lookup_insert_eq|].
  split; [simpl; rewrite lookup_insert_eq; by rewrite Hf|].
  split; [simpl; rewrite Hf; by rewrite lookup_app_r, Nat.sub_diag|].
  split; [done|].
  split.
  { unfold place_order_via. rewrite Hk.
    destruct (as_key (getattr order "order_id" (transmit _ _))) as [k'|];
      [|done].
    by destruct (submitted_future _ !! k'). }
  rewrite (place_order_run _ _ _ Hk). split; [done|]. cbn [fst snd].
  destruct (registered_lookup (OutMsg PLACE_ORDER [VInt 45; VRef order]) k order
              (assign_order_id order s)) as (Ho & Hs & Hp & _).
  rewrite Hf in Hs, Hp.
  rewrite (handle_order_status_resolves _ p _ _ _ Ho Hs Hp). cbn [snd].
  rewrite retire_futs. apply list_lookup_insert_eq.
  rewrite fire_updated_futs, setattrs_futs. by eapply lookup_lt_Some.
Qed.

(** C10: [place_order] assigns an id only when the order's [order_id] is
    falsy, and it overwrites the order-map entry and the pending-future
    entry of that id without looking: a call that reuses an id under which
    a placement future is still pending stores the new order and a fresh
    future, and the first future is left pending for ever, whatever the
    session does afterwards. *)
Theorem place_order_overwrites_pending_future
    {env : Environment} (s : session) (order : loc) (k : Z) (f0 : loc) :
  reachable s →
  as_key (getattr order "order_id" (assign_order_id order s)) = Some k →
  submitted_future s !! k = Some f0 →
  (truthy (getattr order "order_id" s) = true →
     getattr order "order_id" (place_order order s).2 = getattr order "order_id" s)
  ∧ (truthy (getattr order "order_id" s) = false →
     getattr order "order_id" (place_order order s).2 = VInt (next_order_id s))
  ∧ (place_order order s).1 = inr (length (futs s))
  ∧ length (futs s) ≠ f0
  ∧ futs s !! f0 = Some Pending
  ∧ orders (place_order order s).2 !! k = Some order
  ∧ submitted_future (place_order order s).2 !! k = Some (length (futs s))
  ∧ futs (place_order order s).2 !! length (futs s) = Some Pending
  ∧ ∀ l, futs (run_ops l (place_order order s).2) !! f0 = Some Pending.
Proof.
  intros Hreach Hk Hf0. apply reachable_inv in Hreach as Hinv.
  pose proof (inv_pending s Hinv _ _ Hf0) as Hp0.
  pose proof (lookup_lt_Some _ _ _ Hp0) as Hlt0.
  assert (order < length (objs s))%nat as Hvalid.
  { rewrite <- (assign_order_id_length order s).
    apply (getattr_valid order "order_id"). by destruct (getattr _ _ _). }
  destruct (assign_order_id_rest order s) as (Hf & _ & _ & Hsub & Hopen & _).
  rewrite (place_order_run _ _ _ Hk). cbn [fst snd].
  destruct (registered_lookup (OutMsg PLACE_ORDER [VInt 45; VRef order]) k order
              (assign_order_id order s)) as (Ho & Hs & Hp & _).
  rewrite Hf in Hs, Hp.
  split.
  { intros Ht. rewrite registered_getattr. unfold assign_order_id. by rewrite Ht. }
  split.
  { intros Ht. rewrite registered_getattr. unfold assign_order_id. rewrite Ht.
    by apply getattr_setattr_eq. }
  split; [done|]. split; [lia|]. split; [done|].
  split; [done|]. split; [done|]. split; [done|].
  intros l. apply orphaned_run_ops. repeat split.
  - simpl. rewrite Hf. by apply lookup_app_l_Some.
  - intros k' Hk'. simpl in Hk'. rewrite Hf, Hsub in Hk'.
    apply lookup_insert_Some in Hk' as [[_ E]|[Hne Hk']]; [lia|].
    apply Hne. by eapply (inv_inj s Hinv).
  - simpl. rewrite Hopen. intros Ho'.
    destruct (inv_open s Hinv _ Ho') as [_ Hno]. by apply (Hno k).
Qed.

(** C5 (as amended): an allocating [place_order] (one whose order has a
    falsy [order_id]) assigns the current value of the counter and does not
    advance it; only a next-valid-id push moves the counter, to the id it
    announces.  So an allocation made after an announcement gets exactly
    the announced id, never one below it, and two allocations get distinct,
    increasing ids when a push announcing a larger id arrives in between. *)
Theorem allocation_assigns_the_counter (s : session) (order : loc) :
  (order < length (objs s))%nat →
  truthy (getattr order "order_id" s) = false →
  getattr order "order_id" (place_order order s).2 = VInt (next_order_id s)
  ∧ next_order_id (place_order order s).2 = next_order_id s
  ∧ (∀ n, next_order_id (_handle_next_valid_id n s) = n)
  ∧ (∀ n, getattr order "order_id"
            (place_order order (_handle_next_valid_id n s)).2 = VInt n)
  ∧ (∀ n order2,
       (order2 < length (objs s))%nat → order2 ≠ order →
       truthy (getattr order2 "order_id" s) = false →
       next_order_id s < n →
       getattr order "order_id"
         (place_order order2
            (_handle_next_valid_id n (place_order order s).2)).2
       = VInt (next_order_id s)
       ∧ getattr order2 "order_id"
           (place_order order2
              (_handle_next_valid_id n (place_order order s).2)).2
         = VInt n).
Proof.
  intros Hlt Hfalsy.
  rewrite (place_order_allocates _ _ Hlt Hfalsy). cbn [fst snd].
  split; [rewrite registered_getattr; by apply getattr_setattr_eq|].
  split; [simpl; apply setattr_rest|].
  split; [done|].
  split.
  { intros n. rewrite (place_order_allocates order (_handle_next_valid_id n s))
      by done.
    cbn [fst snd]. rewrite registered_getattr. by apply getattr_setattr_eq. }
  intros n order2 Hlt2 Hne Hfalsy2 Hn.
  set (s1 := send_message (OutMsg PLACE_ORDER [VInt 45; VRef order])
               (register_placement (next_order_id s) order
                  (setattr order "order_id" (VInt (next_order_id s)) s))).
  assert (getattr order2 "order_id" (_handle_next_valid_id n s1)
          = getattr order2 "order_id" s) as H2.
  { change (getattr order2 "order_id" (_handle_next_valid_id n s1))
      with (getattr order2 "order_id"
              (setattr order "order_id" (VInt (next_order_id s)) s)).
    by apply getattr_setattr_other. }
  rewrite (place_order_allocates order2 (_handle_next_valid_id n s1)).
  - cbn [fst snd]. rewrite !registered_getattr. split.
    + rewrite getattr_setattr_other by done.
      change (getattr order "order_id" (_handle_next_valid_id n s1))
        with (getattr order "order_id"
                (setattr order "order_id" (VInt (next_order_id s)) s)).
      by apply getattr_setattr_eq.
    + apply getattr_setattr_eq.
      change (objs (_handle_next_valid_id n s1))
        with (objs (setattr order "order_id" (VInt (next_order_id s)) s)).
      by rewrite setattr_length.
  - change (objs (_handle_next_valid_id n s1))
      with (objs (setattr order "order_id" (VInt (next_order_id s)) s)).
    by rewrite setattr_length.
  - by rewrite H2.
Qed.

(** ** Error routing *)

(** C4: an error message whose request id has a pending placement future
    fails that future with the server's code and message, retires it and
    stops there (the generic handler is not called); with no future under
    the id the error goes to the generic session error handler and no
    future changes.  This includes an id whose future a status push has
    already resolved and retired; and whatever the id, a future that is
    done is left exactly as it is. *)
Theorem error_routing
    {env : Environment} (s : session) (request_id error_code : Z)
    (error_message : string) :
  reachable s →
  (_handle_err_msg request_id error_code error_message s).1 = inr tt
  ∧ (∀ fut, submitted_future s !! request_id = Some fut →
       futs s !! fut = Some Pending
       ∧ futs (_handle_err_msg request_id error_code error_message s).2
         = <[fut := Failed (ApiException error_code error_message)]> (futs s)
       ∧ futs (_handle_err_msg request_id error_code error_message s).2 !! fut
         = Some (Failed (ApiException error_code error_message))
       ∧ submitted_future (_handle_err_msg request_id error_code error_message s).2
         = delete request_id (submitted_future s)
       ∧ session_errors (_handle_err_msg request_id error_code error_message s).2
         = session_errors s)
  ∧ (submitted_future s !! request_id = None →
       (_handle_err_msg request_id error_code error_message s).2
       = set_session_errors
           (session_errors s ++ [(request_id, error_code, error_message)]) s)
  ∧ (∀ f, done f s →
       futs (_handle_err_msg request_id error_code error_message s).2 !! f
       = futs s !! f)
  ∧ (∀ fut p, submitted_future s !! request_id = Some fut →
       done fut (_handle_order_status request_id p s).2
       ∧ _handle_err_msg request_id error_code error_message
           (_handle_order_status request_id p s).2
         = (inr tt,
            set_session_errors
              (session_errors (_handle_order_status request_id p s).2
               ++ [(request_id, error_code, error_message)])
              (_handle_order_status request_id p s).2)).
Proof.
  intros Hreach. apply reachable_inv in Hreach as Hinv.
  split; [by apply handle_err_msg_ok|].
  split.
  { intros fut Hf. pose proof (inv_pending s Hinv _ _ Hf) as Hp.
    rewrite (handle_err_msg_pending _ _ _ _ _ Hf Hp). cbn [snd].
    repeat split; try done. simpl.
    apply list_lookup_insert_eq. by eapply lookup_lt_Some. }
  split.
  { intros Hnone. by rewrite handle_err_msg_none. }
  split.
  { intros f (x & Hx & Hdone).
    destruct (submitted_future s !! request_id) as [fut|] eqn:Hf.
    - pose proof (inv_pending s Hinv _ _ Hf) as Hp.
      rewrite (handle_err_msg_pending _ _ _ _ _ Hf Hp). simpl.
      apply list_lookup_insert_ne. intros ->. congruence.
    - by rewrite handle_err_msg_none. }
  intros fut p Hf.
  destruct (inv_known s Hinv _ _ Hf) as [order Ho].
  pose proof (inv_pending s Hinv _ _ Hf) as Hp.
  rewrite (handle_order_status_resolves _ p _ _ _ Ho Hf Hp). cbn [snd].
  split.
  - exists (Result (ROrder order)). split; [|done].
    rewrite retire_futs. apply list_lookup_insert_eq.
    rewrite fire_updated_futs, setattrs_futs. by eapply lookup_lt_Some.
  - apply handle_err_msg_none. rewrite retire_submitted_future.
    apply lookup_delete_eq.
Qed.

(** ** The end-to-end scenario *)

Lemma new_object_length d s :
  length (objs (new_object d s).2) = S (length (objs s)).
Proof. simpl. rewrite length_app. simpl. lia. Qed.

Lemma getattr_new_object d n s :
  getattr (length (objs s)) n (new_object d s).2 = default VNone (d !! n).
Proof. unfold getattr. simpl. by rewrite lookup_app_r, Nat.sub_diag. Qed.

Lemma registered_objs m k order s :
  objs (send_message m (register_placement k order s)) = objs s.
Proof. reflexivity. Qed.

Section Scenario.
Context {env : Environment}.

Lemma limit_order_fields_nodup i q l t : NoDup (limit_order_fields i q l t).*1.
Proof. apply (bool_decide_unpack _). vm_compute. exact I. Qed.

Lemma create_limit_order_placed instrument quantity limit tif s :
  truthy (default VNone (Order_init !! "order_id")) = false →
  create_limit_order instrument quantity limit None tif true s =
  (inr (length (futs s)),
   send_message (OutMsg PLACE_ORDER [VInt 45; VRef (length (objs s))])
     (register_placement (next_order_id s) (length (objs s))
        (setattr (length (objs s)) "order_id" (VInt (next_order_id s))
           (setattrs (length (objs s))
              (limit_order_fields instrument quantity limit tif)
              (new_object Order_init s).2)))).
Proof.
  intros Hinit. rewrite create_limit_order_eq. cbv zeta.
  fold (limit_order_fields instrument quantity limit tif).
  rewrite place_order_allocates.
  - by rewrite setattrs_futs, setattrs_next_order_id.
  - rewrite setattrs_length, new_object_length. lia.
  - rewrite getattr_setattrs_notin, getattr_new_object; [done|].
    apply (bool_decide_unpack _). vm_compute. exact I.
Qed.

(** C6: [create_limit_order(instrument, 100, 13.37)] with no action composes
    one order (action Buy, total quantity 100, type Limit, limit price
    13.37), places it under the next order id and hands exactly one
    place-order message to the transport; the status push
    [(order_id, "Submitted", 0, 100, 0.0, perm_id, 0, 0, client_id, empty)]
    then resolves the returned future with that order, whose status is
    "Submitted" and whose remaining quantity is 100. *)
Theorem limit_order_scenario
    (s : session) (instrument perm_id client_id : pyval) :
  truthy (default VNone (Order_init !! "order_id")) = false →
  (limit_order_example instrument s).1 = inr (length (futs s))
  ∧ sent (limit_order_example instrument s).2
    = (sent s ++ [OutMsg PLACE_ORDER [VInt 45; VRef (length (objs s))]])%list
  ∧ getattr (length (objs s)) "action" (limit_order_example instrument s).2
    = Action_Buy
  ∧ getattr (length (objs s)) "total_quantity" (limit_order_example instrument s).2
    = VInt 100
  ∧ getattr (length (objs s)) "order_type" (limit_order_example instrument s).2
    = OrderType_Limit
  ∧ getattr (length (objs s)) "limit_price" (limit_order_example instrument s).2
    = VFloat 13.37%float
  ∧ getattr (length (objs s)) "order_id" (limit_order_example instrument s).2
    = VInt (next_order_id s)
  ∧ orders (limit_order_example instrument s).2 !! next_order_id s
    = Some (length (objs s))
  ∧ futs (limit_order_example instrument s).2 !! length (futs s) = Some Pending
  ∧ (_handle_order_status (next_order_id s) (submitted_push perm_id client_id)
       (limit_order_example instrument s).2).1 = inr tt
  ∧ futs (_handle_order_status (next_order_id s)
            (submitted_push perm_id client_id)
            (limit_order_example instrument s).2).2 !! length (futs s)
    = Some (Result (ROrder (length (objs s))))
  ∧ getattr (length (objs s)) "status"
      (_handle_order_status (next_order_id s) (submitted_push perm_id client_id)
         (limit_order_example instrument s).2).2
    = VStr "Submitted"
  ∧ getattr (length (objs s)) "remaining"
      (_handle_order_status (next_order_id s) (submitted_push perm_id client_id)
         (limit_order_example instrument s).2).2
    = VInt 100.
Proof.
  intros Hinit. unfold limit_order_example.
  rewrite (create_limit_order_placed _ _ _ _ _ Hinit). cbn [fst snd].
  remember (setattrs (length (objs s))
              (limit_order_fields instrument (VInt 100) (VFloat 13.37%float)
                 TimeInForce_GoodTillCancel)
              (new_object Order_init s).2) as s5 eqn:Hs5.
  assert (length (objs s5) = S (length (objs s))) as Hlen
    by (rewrite Hs5, setattrs_length; apply new_object_length).
  assert (futs s5 = futs s) as Hfuts by (by rewrite Hs5, setattrs_futs).
  assert (sent s5 = sent s) as Hsent by (by rewrite Hs5, setattrs_sent).
  assert (∀ n v, (n, v) ∈ limit_order_fields instrument (VInt 100)
                    (VFloat 13.37%float) TimeInForce_GoodTillCancel →
                 getattr (length (objs s)) n s5 = v) as Hfield.
  { intros n v Hin. rewrite Hs5.
    apply getattr_setattrs_in;
      [apply limit_order_fields_nodup | done | rewrite new_object_length; lia]. }
  clear Hs5.
  remember (setattr (length (objs s)) "order_id" (VInt (next_order_id s)) s5)
    as s6 eqn:Hs6.
  assert (length (objs s6) = S (length (objs s))) as Hlen6
    by (by rewrite Hs6, setattr_length).
  assert (futs s6 = futs s) as Hfuts6.
  { rewrite Hs6. by rewrite (proj1 (setattr_rest _ _ _ _)). }
  assert (sent s6 = sent s) as Hsent6.
  { rewrite Hs6.
    destruct (setattr_rest (length (objs s)) "order_id"
                (VInt (next_order_id s)) s5) as (_ & _ & _ & _ & _ & -> & _).
    done. }
  assert (getattr (length (objs s)) "order_id" s6 = VInt (next_order_id s))
    as Hid by (rewrite Hs6; apply getattr_setattr_eq; lia).
  assert (∀ n v, n ≠ "order_id" →
                 (n, v) ∈ limit_order_fields instrument (VInt 100)
                    (VFloat 13.37%float) TimeInForce_GoodTillCancel →
                 getattr (length (objs s)) n s6 = v) as Hfield6.
  { intros n v Hne Hin. rewrite Hs6, getattr_setattr_ne by done. by apply Hfield. }
  clear Hs6 Hfield.
  destruct (registered_lookup
              (OutMsg PLACE_ORDER [VInt 45; VRef (length (objs s))])
              (next_order_id s) (length (objs s)) s6)
    as (Ho & Hsub & Hpend & Hsnt & _).
  rewrite Hfuts6 in Hsub, Hpend. rewrite Hsent6 in Hsnt.
  split; [done|]. split; [done|].
  rewrite !registered_getattr.
  split; [apply Hfield6; [done | unfold limit_order_fields; in_list]|].
  split; [apply Hfield6; [done | unfold limit_order_fields; in_list]|].
  split; [apply Hfield6; [done | unfold limit_order_fields; in_list]|].
  split; [apply Hfield6; [done | unfold limit_order_fields; in_list]|].
  split; [done|]. split; [done|]. split; [done|].
  rewrite (handle_order_status_resolves _ _ _ _ _ Ho Hsub Hpend). cbn [fst snd].
  split; [done|]. split.
  { rewrite retire_futs. apply list_lookup_insert_eq.
    rewrite fire_updated_futs, setattrs_futs. by eapply lookup_lt_Some. }
  rewrite !getattr_retire, !getattr_fire_updated.
  split; (apply getattr_setattrs_in;
          [apply status_names_nodup
          | unfold status_assignments, submitted_push; cbn [sp_status sp_remaining];
            in_list
          | rewrite registered_objs, Hlen6; lia]).
Qed.

End Scenario.

(** ** Market data *)

(** C8: setting the declared tick types to the set last sent while the
    subscription is active sends no subscribe, and setting the same
    non-empty set twice in a row sends nothing the second time, so a new
    interest costs exactly one subscribe; changing an active subscription to
    a different non-empty set sends exactly one resubscribe that carries
    exactly the declared set; emptying it while active sends exactly one
    unsubscribe for the active request id. *)
Theorem subscription_diffing (declared : gset Z) (fresh_id : Z) (st : subscription) :
  (∀ r, active_request_id st = Some r → declared = last_sent_tick_types st →
     List.filter is_subscribe (set_market_data_tick_types declared fresh_id st).2
     = [])
  ∧ (declared ≠ ∅ →
     (set_market_data_tick_types declared fresh_id
        (set_market_data_tick_types declared fresh_id st).1).2 = []
     ∧ ((active_request_id st = None ∨ declared ≠ last_sent_tick_types st) →
        ∃ r,
          ((set_market_data_tick_types declared fresh_id st).2
           ++ (set_market_data_tick_types declared fresh_id
                 (set_market_data_tick_types declared fresh_id st).1).2)%list
          = [MdSubscribe r declared false false]))
  ∧ (∀ r, active_request_id st = Some r → declared ≠ ∅ →
     declared ≠ last_sent_tick_types st →
     set_market_data_tick_types declared fresh_id st
     = ({| active_request_id := Some r; last_sent_tick_types := declared |},
        [MdSubscribe r declared false false]))
  ∧ (∀ r, active_request_id st = Some r → declared = ∅ →
     set_market_data_tick_types declared fresh_id st
     = ({| active_request_id := None;
           last_sent_tick_types := last_sent_tick_types st |},
        [MdUnsubscribe r])).
Proof.
  unfold set_market_data_tick_types. split; [|split; [|split]].
  - intros r Hr Heq. rewrite Hr.
    destruct (decide (declared = ∅)); [done|].
    by destruct (decide (declared = last_sent_tick_types st)).
  - intros Hne. destruct (decide (declared = ∅)) as [|_]; [done|].
    destruct (active_request_id st) as [r|] eqn:Hr; simpl.
    + destruct (decide (declared = last_sent_tick_types st)) as [Heq|Hdiff]; simpl.
      * rewrite Hr. split; [by destruct (decide (declared = last_sent_tick_types st))|].
        by intros [|].
      * destruct (decide (declared = declared)); [|done].
        split; [done|]. intros _. by exists r.
    + destruct (decide (declared = declared)); [|done].
      split; [done|]. intros _. by exists fresh_id.
  - intros r Hr Hne Hdiff. rewrite Hr.
    destruct (decide (declared = ∅)); [done|].
    by destruct (decide (declared = last_sent_tick_types st)).
  - intros r Hr Hempty. rewrite Hr. by destruct (decide (declared = ∅)).
Qed.

(** C9: a market-data request with the regulatory-snapshot flag, made while
    the negotiated protocol version is below the version the feature
    requires, raises [OutdatedServerError] at the call and leaves the client
    as it was: nothing has been sent. *)
Theorem regulatory_snapshot_needs_version
    (required : Z) (tick_types : gset Z) (snapshot : bool) (c : md_client) :
  md_version c < required →
  get_market_data required tick_types snapshot true c
  = (inl OutdatedServerError, c).
Proof.
  intros Hlt. unfold get_market_data.
  by destruct (Z.ltb_spec (md_version c) required); [|lia].
Qed.

(** ** The theorems at concrete sessions *)

(** An open-order push of the sample environment whose fields are all empty
    decodes to the end; a count of 1 in the 37th or, at version 102, in the
    62nd field is the order-combo-legs or the conditions count. *)
Example open_order_push_decodes :
  (@_handle_open_order sample_env (sample_push 5)
     (init_session, sample_message 200 "1")).1 = inr tt.
Proof. vm_compute. reflexivity. Qed.

Example order_combo_legs_unsupported :
  (@_handle_open_order sample_env (sample_push 5)
     (init_session, sample_message 36 "1")).1
  = inl (UnsupportedFeature "order combo legs").
Proof. vm_compute. reflexivity. Qed.

Example order_conditions_unsupported :
  (@_handle_open_order sample_env (sample_push 5)
     (init_session, sample_message_102 61 "1")).1
  = inl (UnsupportedFeature "order conditions").
Proof. vm_compute. reflexivity. Qed.

(** Below the version that introduces it the conditions count is not read:
    at version 100 the handler consumes 61 fields and finishes. *)
Example order_conditions_gated :
  (@_handle_open_order sample_env (sample_push 5)
     (init_session, sample_message 200 "1")).1 = inr tt
  ∧ length (fields (@_handle_open_order sample_env (sample_push 5)
                      (init_session, sample_message 200 "1")).2.2) = 140%nat.
Proof. vm_compute. split; reflexivity. Qed.

(** A transport that delivers the reply inside [send_message] itself: the
    status push finds the pending future and resolves it, and the lookup on
    the last line of [place_order] then raises KeyError. *)
Example synchronous_reply_finds_the_future :
  (place_order_via
     (λ m s, (_handle_order_status 1 sample_status (send_message m s)).2)
     0 two_new_orders).1 = inl KeyError
  ∧ futs (place_order_via
            (λ m s, (_handle_order_status 1 sample_status (send_message m s)).2)
            0 two_new_orders).2 !! 0%nat
    = Some (Result (ROrder 0%nat)).
Proof. vm_compute. split; reflexivity. Qed.

Lemma status_then_open_order_resolves_once_witness :
  ∃ order,
    futs (_handle_order_status 1 sample_status sample_placed).2 !! 0%nat
    = Some (Result (ROrder order)).
Proof.
  destruct (@status_then_open_order_resolves_once sample_env sample_placed 0%nat
              sample_status (sample_push 1) (sample_message 35 "1"))
    as (order & _ & _ & _ & H & _).
  - exists [CallCreateLimitOrder VNone (VInt 100) (VFloat 13.37%float) None
              TimeInForce_GoodTillCancel true].
    reflexivity.
  - vm_compute. reflexivity.
  - exists order. exact H.
Defined.

(** C3, the claim as stated: in a new session a status push for order id 7
    creates no order record at all. *)
Lemma status_push_for_unknown_id_creates_no_record :
  get_order 7 (_handle_order_status 7 sample_status init_session).2 = None
  ∧ objs (_handle_order_status 7 sample_status init_session).2 = [].
Proof. split; reflexivity. Qed.

Lemma unknown_order_id_materialization_witness :
  _handle_order_status 5 sample_status init_session = (inr tt, init_session)
  ∧ orders (@_handle_open_order sample_env (sample_push 5)
              (init_session, sample_message 35 "1")).2.1 !! 5 = Some 0%nat.
Proof.
  destruct (@unknown_order_id_materialization sample_env init_session
              sample_status (sample_push 5) (sample_message 35 "1"))
    as (H1 & H2 & _).
  - reflexivity.
  - split; [exact H1 | exact H2].
Defined.

Lemma error_routing_witness :
  (_handle_err_msg 1 201 "Order rejected" sample_placed).1 = inr tt.
Proof.
  apply (@error_routing sample_env sample_placed 1 201 "Order rejected").
  exists [CallCreateLimitOrder VNone (VInt 100) (VFloat 13.37%float) None
            TimeInForce_GoodTillCancel true].
  reflexivity.
Defined.

(** C5, the claim as stated: two orders without an id placed one after the
    other in a new session both allocate, and both are assigned id 1. *)
Lemma two_allocations_share_an_id :
  (place_order 0 two_new_orders).1 = inr 0%nat
  ∧ (place_order 1 (place_order 0 two_new_orders).2).1 = inr 1%nat
  ∧ getattr 0 "order_id" (place_order 1 (place_order 0 two_new_orders).2).2
    = VInt 1
  ∧ getattr 1 "order_id" (place_order 1 (place_order 0 two_new_orders).2).2
    = VInt 1.
Proof. vm_compute. repeat split. Qed.

Lemma allocation_assigns_the_counter_witness :
  getattr 0 "order_id" (place_order 0 two_new_orders).2 = VInt 1
  ∧ getattr 0 "order_id"
      (place_order 0 (_handle_next_valid_id 40 two_new_orders)).2 = VInt 40.
Proof.
  destruct (allocation_assigns_the_counter two_new_orders 0%nat)
    as (H1 & _ & _ & H2 & _).
  - simpl. lia.
  - reflexivity.
  - split; [exact H1 | exact (H2 40)].
Defined.

Lemma limit_order_scenario_witness :
  sent (@limit_order_example sample_env VNone init_session).2
  = [OutMsg PLACE_ORDER [VInt 45; VRef 0%nat]]
  ∧ getattr 0 "remaining"
      (_handle_order_status 1 (submitted_push (VInt 99) (VInt 7))
         (@limit_order_example sample_env VNone init_session).2).2
    = VInt 100.
Proof.
  destruct (@limit_order_scenario sample_env init_session VNone (VInt 99) (VInt 7))
    as (_ & H1 & _ & _ & _ & _ & _ & _ & _ & _ & _ & _ & H2).
  - reflexivity.
  - split; [exact H1 | exact H2].
Defined.

Lemma registration_precedes_transmission_witness :
  futs (_handle_order_status 1 sample_status (place_order 0 two_new_orders).2).2
    !! 0%nat
  = Some (Result (ROrder 0%nat)).
Proof.
  destruct (registration_precedes_transmission send_message 0%nat two_new_orders
              1 sample_status) as (_ & _ & _ & _ & _ & _ & H).
  - reflexivity.
  - exact H.
Defined.

Lemma subscription_diffing_witness :
  set_market_data_tick_types {[100]} 44
    {| active_request_id := Some 43; last_sent_tick_types := {[100; 101]} |}
  = ({| active_request_id := Some 43; last_sent_tick_types := {[100]} |},
     [MdSubscribe 43 {[100]} false false]).
Proof.
  destruct (subscription_diffing {[100]} 44
              {| active_request_id := Some 43;
                 last_sent_tick_types := {[100; 101]} |})
    as (_ & _ & H & _).
  apply (H 43); [reflexivity | by vm_compute | by vm_compute].
Defined.

Lemma regulatory_snapshot_needs_version_witness :
  get_market_data 114 {[100]} false true
    {| md_version := 100; md_next_request_id := 43; md_wire := [] |}
  = (inl OutdatedServerError,
     {| md_version := 100; md_next_request_id := 43; md_wire := [] |}).
Proof. apply regulatory_snapshot_needs_version. simpl. lia. Defined.

Lemma place_order_overwrites_pending_future_witness :
  futs (@run_ops sample_env
          [PushOrderStatus 1 sample_status; PushErrMsg 1 201 "Order rejected";
           PushOpenOrderEnd]
          (place_order 0 sample_placed).2) !! 0%nat
  = Some Pending.
Proof.
  destruct (@place_order_overwrites_pending_future sample_env sample_placed
              0%nat 1 0%nat) as (_ & _ & _ & _ & _ & _ & _ & _ & H).
  - exists [CallCreateLimitOrder VNone (VInt 100) (VFloat 13.37%float) None
              TimeInForce_GoodTillCancel true].
    reflexivity.
  - vm_compute. reflexivity.
  - vm_compute. reflexivity.
  - exact (H [PushOrderStatus 1 sample_status; PushErrMsg 1 201 "Order rejected";
              PushOpenOrderEnd]).
Defined.

(** * Further properties of the order ledger *)

(** ** What resolving, failing and finishing leave alone *)

Lemma resolve_submitted_frame id o s :
  objs (resolve_submitted id o s).2 = objs s
  ∧ orders (resolve_submitted id o s).2 = orders s
  ∧ next_order_id (resolve_submitted id o s).2 = next_order_id s
  ∧ open_orders_future (resolve_submitted id o s).2 = open_orders_future s
  ∧ sent (resolve_submitted id o s).2 = sent s
  ∧ updated_log (resolve_submitted id o s).2 = updated_log s
  ∧ session_errors (resolve_submitted id o s).2 = session_errors s
  ∧ (∀ k, k ≠ id →
       submitted_future (resolve_submitted id o s).2 !! k = submitted_future s !! k)
  ∧ (∀ f, submitted_future s !! id ≠ Some f →
       futs (resolve_submitted id o s).2 !! f = futs s !! f).
Proof.
  unfold resolve_submitted.
  destruct (submitted_future s !! id) as [f0|] eqn:E; [|done].
  unfold set_result. simpl.
  destruct (futs s !! f0) as [[]|]; simpl; repeat split; try done;
    try (intros k Hk; by rewrite lookup_delete_ne).
  intros f Hf. rewrite list_lookup_insert_ne; [done | congruence].
Qed.

Lemma handle_err_msg_frame r c m s :
  objs (_handle_err_msg r c m s).2 = objs s
  ∧ orders (_handle_err_msg r c m s).2 = orders s
  ∧ next_order_id (_handle_err_msg r c m s).2 = next_order_id s
  ∧ open_orders_future (_handle_err_msg r c m s).2 = open_orders_future s
  ∧ sent (_handle_err_msg r c m s).2 = sent s
  ∧ updated_log (_handle_err_msg r c m s).2 = updated_log s
  ∧ (∀ k, k ≠ r →
       submitted_future (_handle_err_msg r c m s).2 !! k = submitted_future s !! k)
  ∧ (∀ f, submitted_future s !! r ≠ Some f →
       futs (_handle_err_msg r c m s).2 !! f = futs s !! f).
Proof.
  unfold _handle_err_msg.
  destruct (submitted_future s !! r) as [f0|] eqn:E; [|done].
  unfold set_exception. simpl.
  destruct (futs s !! f0) as [[]|]; simpl; repeat split; try done;
    try (intros k Hk; by rewrite lookup_delete_ne).
  intros f Hf. rewrite list_lookup_insert_ne; [done | congruence].
Qed.

Lemma finish_result_frame id o s :
  objs (finish_result id o s).2 = objs s
  ∧ orders (finish_result id o s).2 = orders s
  ∧ next_order_id (finish_result id o s).2 = next_order_id s
  ∧ open_orders_future (finish_result id o s).2 = open_orders_future s
  ∧ sent (finish_result id o s).2 = sent s
  ∧ session_errors (finish_result id o s).2 = session_errors s
  ∧ (∀ k, k ≠ id →
       submitted_future (finish_result id o s).2 !! k = submitted_future s !! k)
  ∧ (∀ f, submitted_future s !! id ≠ Some f →
       futs (finish_result id o s).2 !! f = futs s !! f).
Proof.
  unfold finish_result.
  destruct (resolve_submitted_frame id o s)
    as (H1 & H2 & H3 & H4 & H5 & _ & H7 & H8 & H9).
  by destruct (resolve_submitted id o s) as [[e|[]] s'].
Qed.

Lemma open_order_end_ok s :
  session_inv s → (_handle_open_order_end s).1 = inr tt.
Proof.
  intros Hs. unfold _handle_open_order_end.
  destruct (open_orders_future s) as [f|] eqn:Hopen; [|done].
  destruct (inv_open s Hs f Hopen) as [Hp _].
  by rewrite set_result_pending.
Qed.

(** ** Requests for the open orders *)

Lemma get_open_orders_rest s :
  open_orders_future (get_open_orders s).2 = Some (get_open_orders s).1
  ∧ orders (get_open_orders s).2 = orders s
  ∧ submitted_future (get_open_orders s).2 = submitted_future s
  ∧ objs (get_open_orders s).2 = objs s.
Proof.
  unfold get_open_orders. by destruct (open_orders_future s) as [f|] eqn:Hopen.
Qed.

Lemma open_order_end_outstanding s f :
  open_orders_future s = Some f → futs s !! f = Some Pending →
  _handle_open_order_end s =
  (inr tt,
   set_open_orders_future None
     (set_futs (<[f := Result ROrdersView]> (futs s)) s)).
Proof.
  intros Hopen Hp. unfold _handle_open_order_end.
  by rewrite Hopen, (set_result_pending _ _ _ Hp).
Qed.

(** X1: while a request for the open orders is outstanding, a further
    [get_open_orders] hands back the same future and allocates nothing; each
    call sends one request message.  The first call of a round allocates the
    future. *)
Theorem get_open_orders_shares_the_future (s : session) :
  (get_open_orders (get_open_orders s).2).1 = (get_open_orders s).1
  ∧ open_orders_future (get_open_orders s).2 = Some (get_open_orders s).1
  ∧ futs (get_open_orders (get_open_orders s).2).2 = futs (get_open_orders s).2
  ∧ sent (get_open_orders (get_open_orders s).2).2
    = (sent s ++ [OutMsg REQ_ALL_OPEN_ORDERS [VInt 1];
                  OutMsg REQ_ALL_OPEN_ORDERS [VInt 1]])%list
  ∧ (open_orders_future s = None →
       (get_open_orders s).1 = length (futs s)
       ∧ futs (get_open_orders s).2 = (futs s ++ [Pending])%list)
  ∧ (∀ f, open_orders_future s = Some f →
       (get_open_orders s).1 = f ∧ futs (get_open_orders s).2 = futs s).
Proof.
  unfold get_open_orders.
  destruct (open_orders_future s) as [f|] eqn:Hopen; simpl.
  - rewrite Hopen. simpl. rewrite <- app_assoc.
    split; [done|]. split; [done|]. split; [done|]. split; [done|].
    split; [done|]. by intros f' [= ->].
  - rewrite <- app_assoc. by repeat split.
Qed.

Section OpenOrdersRound.
Context {env : Environment}.

(** X2: in a reachable session the open-order-end push resolves the
    outstanding open-orders future with the view of the order map and clears
    the slot, touching nothing else; a second end push then does nothing,
    and the next request allocates a new future. *)
Theorem open_order_end_closes_the_round (s s1 : session) (f : loc) :
  reachable s →
  get_open_orders s = (f, s1) →
  (_handle_open_order_end s1).1 = inr tt
  ∧ futs (_handle_open_order_end s1).2 = <[f := Result ROrdersView]> (futs s1)
  ∧ futs (_handle_open_order_end s1).2 !! f = Some (Result ROrdersView)
  ∧ open_orders_future (_handle_open_order_end s1).2 = None
  ∧ orders (_handle_open_order_end s1).2 = orders s
  ∧ submitted_future (_handle_open_order_end s1).2 = submitted_future s
  ∧ objs (_handle_open_order_end s1).2 = objs s
  ∧ _handle_open_order_end (_handle_open_order_end s1).2
    = (inr tt, (_handle_open_order_end s1).2)
  ∧ (get_open_orders (_handle_open_order_end s1).2).1 ≠ f.
Proof.
  intros Hreach Hget. apply reachable_inv in Hreach as Hinv.
  pose proof (session_inv_get_open_orders s Hinv) as Hinv1.
  destruct (get_open_orders_rest s) as (Hopen & Ho & Hsub & Hobjs).
  rewrite Hget in Hinv1, Hopen, Ho, Hsub, Hobjs. cbn [fst snd] in *.
  destruct (inv_open s1 Hinv1 f Hopen) as [Hp _].
  rewrite (open_order_end_outstanding s1 f Hopen Hp). cbn [fst snd].
  split; [done|]. split; [done|].
  split; [simpl; apply list_lookup_insert_eq; by eapply lookup_lt_Some|].
  split; [done|]. split; [done|]. split; [done|]. split; [done|].
  split; [done|].
  unfold get_open_orders. simpl. rewrite length_insert.
  apply lookup_lt_Some in Hp. lia.
Qed.

End OpenOrdersRound.

(** ** Consistency of reachable sessions *)

Section Consistency.
Context {env : Environment}.

(** X3: every session the mixin can reach is consistent: the order map
    refers to existing objects; every entry of the pending-future map refers
    to a future that is still pending, under an id the order map knows, and
    no future is registered under two ids; the open-orders future, when
    there is one, is pending and is not a placement future. *)
Theorem reachable_sessions_are_consistent (s : session) :
  reachable s →
  (∀ k o, orders s !! k = Some o → (o < length (objs s))%nat)
  ∧ (∀ k f, submitted_future s !! k = Some f →
       futs s !! f = Some Pending ∧ is_Some (orders s !! k))
  ∧ (∀ k1 k2 f, submitted_future s !! k1 = Some f →
       submitted_future s !! k2 = Some f → k1 = k2)
  ∧ (∀ f, open_orders_future s = Some f →
       futs s !! f = Some Pending ∧ ∀ k, submitted_future s !! k ≠ Some f).
Proof.
  intros Hreach. destruct (reachable_inv s Hreach) as [I1 I2 I3 I4 I5].
  repeat split; eauto.
  - by apply I5.
  - by apply I5.
Qed.

(** X4: in a reachable session the delivery path never trips over a future
    that is already done: the status, error and open-order-end handlers
    return normally, and the open-order handler can only raise what the
    decoding raises, never asyncio's InvalidStateError. *)
Theorem delivery_never_resolves_twice (s : session) :
  reachable s →
  (∀ id p, (_handle_order_status id p s).1 = inr tt)
  ∧ (∀ r c m, (_handle_err_msg r c m s).1 = inr tt)
  ∧ (_handle_open_order_end s).1 = inr tt
  ∧ (∀ p m, (_handle_open_order p (s, m)).1 ≠ inl InvalidStateError).
Proof.
  intros Hreach. apply reachable_inv in Hreach as Hinv.
  split; [intros id p; by apply handle_order_status_ok|].
  split; [intros r c m; by apply handle_err_msg_ok|].
  split; [by apply open_order_end_ok|].
  intros p m. by apply handle_open_order_ok.
Qed.

End Consistency.

(** ** Frames of the handlers *)

Lemma setattrs_updated_log o l s : updated_log (setattrs o l s) = updated_log s.
Proof. apply setattrs_rest. Qed.

Lemma setattrs_session_errors o l s :
  session_errors (setattrs o l s) = session_errors s.
Proof. apply setattrs_rest. Qed.

Lemma fire_updated_rest o s :
  updated_log (fire_updated o s) = (updated_log s ++ [o])%list
  ∧ sent (fire_updated o s) = sent s
  ∧ next_order_id (fire_updated o s) = next_order_id s
  ∧ session_errors (fire_updated o s) = session_errors s.
Proof. done. Qed.

(** X5: a status push for a known order fires exactly one "updated"
    notification for that order and changes nothing but the ten status
    fields of that order and the pending future of that id: nothing is sent,
    the order map, the id counter and the generic error log are as before,
    every other attribute of every object is as before, and the pending
    futures of other ids are untouched. *)
Theorem status_push_frame (id : Z) (p : status_push) (s : session) (order : loc) :
  orders s !! id = Some order →
  updated_log (_handle_order_status id p s).2 = (updated_log s ++ [order])%list
  ∧ sent (_handle_order_status id p s).2 = sent s
  ∧ orders (_handle_order_status id p s).2 = orders s
  ∧ next_order_id (_handle_order_status id p s).2 = next_order_id s
  ∧ session_errors (_handle_order_status id p s).2 = session_errors s
  ∧ open_orders_future (_handle_order_status id p s).2 = open_orders_future s
  ∧ (∀ o n, o ≠ order → getattr o n (_handle_order_status id p s).2 = getattr o n s)
  ∧ (∀ n, n ∉ (status_assignments p).*1 →
       getattr order n (_handle_order_status id p s).2 = getattr order n s)
  ∧ (∀ k, k ≠ id →
       submitted_future (_handle_order_status id p s).2 !! k
       = submitted_future s !! k)
  ∧ (∀ f, submitted_future s !! id ≠ Some f →
       futs (_handle_order_status id p s).2 !! f = futs s !! f).
Proof.
  intros Ho. rewrite (handle_order_status_found _ p _ _ Ho).
  remember (fire_updated order (setattrs order (status_assignments p) s))
    as s1 eqn:Hs1.
  destruct (resolve_submitted_frame id order s1)
    as (H1 & H2 & H3 & H4 & H5 & H6 & H7 & H8 & H9).
  assert (submitted_future s1 = submitted_future s) as Hsub
    by (by rewrite Hs1, fire_updated_submitted_future, setattrs_submitted_future).
  assert (futs s1 = futs s) as Hfuts
    by (by rewrite Hs1, fire_updated_futs, setattrs_futs).
  destruct (fire_updated_rest order (setattrs order (status_assignments p) s))
    as (Hu & Hse & Hn & Her).
  rewrite <- Hs1 in Hu, Hse, Hn, Her.
  rewrite H2, H3, H4, H5, H6, H7, Hu, Hse, Hn, Her.
  rewrite setattrs_updated_log, setattrs_sent, setattrs_next_order_id,
    setattrs_session_errors.
  split; [done|]. split; [done|].
  split; [by rewrite Hs1, fire_updated_orders, setattrs_orders|].
  split; [done|]. split; [done|].
  split; [by rewrite Hs1, fire_updated_open_orders_future,
            setattrs_open_orders_future|].
  split.
  { intros o n Hne. rewrite (getattr_objs o n s1) by done.
    rewrite Hs1, getattr_fire_updated. by apply getattr_setattrs_other. }
  split.
  { intros n Hnot. rewrite (getattr_objs order n s1) by done.
    rewrite Hs1, getattr_fire_updated. by apply getattr_setattrs_notin. }
  split.
  { intros k Hk. by rewrite H8, Hsub. }
  intros f Hf. rewrite H9, Hfuts; [done|]. by rewrite Hsub.
Qed.

(** X6: an error message never touches an order record, the order map, the
    id counter or the wire, whichever way it is routed; it leaves the
    pending futures registered under other ids registered, and changes no
    future but the one pending under its own id. *)
Theorem error_message_frame (r c : Z) (m : string) (s : session) :
  objs (_handle_err_msg r c m s).2 = objs s
  ∧ orders (_handle_err_msg r c m s).2 = orders s
  ∧ next_order_id (_handle_err_msg r c m s).2 = next_order_id s
  ∧ sent (_handle_err_msg r c m s).2 = sent s
  ∧ updated_log (_handle_err_msg r c m s).2 = updated_log s
  ∧ (∀ k, k ≠ r →
       submitted_future (_handle_err_msg r c m s).2 !! k = submitted_future s !! k)
  ∧ (∀ f, submitted_future s !! r ≠ Some f →
       futs (_handle_err_msg r c m s).2 !! f = futs s !! f).
Proof.
  destruct (handle_err_msg_frame r c m s)
    as (H1 & H2 & H3 & H4 & H5 & H6 & H7 & H8).
  done.
Qed.

(** X7: a [place_order] call hands exactly one message, [PLACE_ORDER, 45,
    order], to the transport and allocates exactly one future, which is
    pending; it does not move the id counter, leaves the entries of every
    other id in both maps as they are, and writes no attribute of any
    object except the [order_id] of the order it places. *)
Theorem place_order_frame (order : loc) (s : session) (k : Z) :
  as_key (getattr order "order_id" (assign_order_id order s)) = Some k →
  sent (place_order order s).2
  = (sent s ++ [OutMsg PLACE_ORDER [VInt 45; VRef order]])%list
  ∧ futs (place_order order s).2 = (futs s ++ [Pending])%list
  ∧ next_order_id (place_order order s).2 = next_order_id s
  ∧ updated_log (place_order order s).2 = updated_log s
  ∧ get_order k (place_order order s).2 = Some order
  ∧ (∀ k', k' ≠ k →
       orders (place_order order s).2 !! k' = orders s !! k'
       ∧ submitted_future (place_order order s).2 !! k'
         = submitted_future s !! k')
  ∧ (∀ o n, o ≠ order ∨ n ≠ "order_id" →
       getattr o n (place_order order s).2 = getattr o n s).
Proof.
  intros Hk. rewrite (place_order_run _ _ _ Hk). cbn [snd].
  destruct (assign_order_id_rest order s)
    as (Hf & Ho & Hn & Hsub & _ & Hsent & Hupd & _).
  split; [simpl; by rewrite Hsent|].
  split; [simpl; by rewrite Hf|].
  split; [done|]. split; [done|].
  split; [unfold get_order; simpl; apply lookup_insert_eq|].
  split.
  { intros k' Hne. simpl. rewrite !lookup_insert_ne by done.
    by rewrite Ho, Hsub. }
  intros o n Hon. rewrite registered_getattr. unfold assign_order_id.
  destruct (negb _); [|done].
  destruct Hon as [Hne|Hne].
  - by apply getattr_setattr_other.
  - by apply getattr_setattr_ne.
Qed.

(** ** The open-order push *)

Section OpenOrderPush.
Context {env : Environment}.

Lemma find_or_create_rest id s :
  futs (find_or_create id s).2 = futs s
  ∧ next_order_id (find_or_create id s).2 = next_order_id s
  ∧ submitted_future (find_or_create id s).2 = submitted_future s
  ∧ open_orders_future (find_or_create id s).2 = open_orders_future s
  ∧ sent (find_or_create id s).2 = sent s
  ∧ updated_log (find_or_create id s).2 = updated_log s
  ∧ session_errors (find_or_create id s).2 = session_errors s
  ∧ orders (find_or_create id s).2 !! id = Some (find_or_create id s).1
  ∧ (∀ k, k ≠ id → orders (find_or_create id s).2 !! k = orders s !! k)
  ∧ (∀ o n, (o < length (objs s))%nat →
       getattr o n (find_or_create id s).2 = getattr o n s)
  ∧ (length (objs s) ≤ length (objs (find_or_create id s).2))%nat
  ∧ (orders s !! id = None → (find_or_create id s).1 = length (objs s)).
Proof.
  unfold find_or_create. destruct (orders s !! id) as [o|] eqn:Ho.
  { by repeat split. }
  cbn [new_object fst snd].
  destruct (setattr_rest (length (objs s)) "order_id" (VInt id)
              (set_orders (<[id:=length (objs s)]> (orders (set_objs (objs s ++ [Order_init]) s)))
                 (set_objs (objs s ++ [Order_init]) s)))
    as (-> & -> & -> & -> & -> & -> & -> & ->).
  rewrite setattr_length. simpl.
  repeat split; try done.
  - apply lookup_insert_eq.
  - intros k Hk. by rewrite lookup_insert_ne.
  - intros o n Hlt. rewrite getattr_setattr_other by lia.
    unfold getattr. simpl. by rewrite lookup_app_l.
  - rewrite length_app. lia.
Qed.

(** The two ways a run of the handler ends, with the session spelled out. *)
Lemma handle_open_order_cases p s m :
  ∃ s2,
    attrs_frame decoded_names
      (setattrs (find_or_create (oo_order_id p) s).1 (open_order_assignments p)
         (find_or_create (oo_order_id p) s).2) s2
    ∧ (((_handle_open_order p (s, m)).2.1 = s2
        ∧ ∃ e, (_handle_open_order p (s, m)).1 = inl e ∧ e ≠ InvalidStateError)
       ∨ ((_handle_open_order p (s, m)).1
          = (finish_result (oo_order_id p) (find_or_create (oo_order_id p) s).1 s2).1
          ∧ (_handle_open_order p (s, m)).2.1
            = (finish_result (oo_order_id p)
                 (find_or_create (oo_order_id p) s).1 s2).2)).
Proof.
  destruct (handle_open_order_run p s m) as (s2 & Hfr & Hcase).
  exists s2. split; [done|]. destruct Hcase as [Hraise|Hfin]; [by left|].
  right. rewrite <- Hfin. done.
Qed.

(** X8: an open-order push sends nothing and leaves the id counter, the
    generic error log and the open-orders slot alone; it changes no entry
    of either map under another id, no future but the one pending under its
    own id, and on the objects that existed before it no attribute other
    than the ones its assignments and field reads name. *)
Theorem open_order_push_frame (p : open_order_push) (s : session)
    (m : IncomingMessage) :
  sent (_handle_open_order p (s, m)).2.1 = sent s
  ∧ next_order_id (_handle_open_order p (s, m)).2.1 = next_order_id s
  ∧ session_errors (_handle_open_order p (s, m)).2.1 = session_errors s
  ∧ open_orders_future (_handle_open_order p (s, m)).2.1 = open_orders_future s
  ∧ (∀ k, k ≠ oo_order_id p →
       orders (_handle_open_order p (s, m)).2.1 !! k = orders s !! k
       ∧ submitted_future (_handle_open_order p (s, m)).2.1 !! k
         = submitted_future s !! k)
  ∧ (∀ o n, (o < length (objs s))%nat →
       n ∉ (open_order_assignments p).*1 → n ∉ decoded_names →
       getattr o n (_handle_open_order p (s, m)).2.1 = getattr o n s)
  ∧ (∀ f, submitted_future s !! oo_order_id p ≠ Some f →
       futs (_handle_open_order p (s, m)).2.1 !! f = futs s !! f).
Proof.
  destruct (handle_open_order_cases p s m) as (s2 & Hfr & Hcase).
  destruct (find_or_create_rest (oo_order_id p) s)
    as (F1 & F2 & F3 & F4 & F5 & F6 & F7 & F8 & F9 & F10 & F11 & _).
  destruct Hfr as [G1 G2 G3 G4 G5 G6 G7 G8 G9 G10].
  rewrite setattrs_futs, F1 in G1. rewrite setattrs_orders in G2.
  rewrite setattrs_next_order_id, F2 in G3.
  rewrite setattrs_submitted_future, F3 in G4.
  rewrite setattrs_open_orders_future, F4 in G5.
  rewrite setattrs_sent, F5 in G6.
  rewrite setattrs_session_errors, F7 in G8.
  assert (∀ o n, (o < length (objs s))%nat →
            n ∉ (open_order_assignments p).*1 → n ∉ decoded_names →
            getattr o n s2 = getattr o n s) as Hattr.
  { intros o n Hlt Hn Hd. rewrite G10 by done.
    rewrite getattr_setattrs_notin by done. by apply F10. }
  destruct (finish_result_frame (oo_order_id p)
              (find_or_create (oo_order_id p) s).1 s2)
    as (E1 & E2 & E3 & E4 & E5 & E6 & E7 & E8).
  destruct Hcase as [[-> _]|[_ ->]].
  - rewrite G1, G3, G4, G5, G6, G8, G2.
    repeat split; try done. by apply F9.
  - rewrite E2, E3, E4, E5, E6, G2, G3, G5, G6, G8.
    split; [done|]. split; [done|]. split; [done|]. split; [done|].
    split.
    { intros k Hk. split; [by apply F9|]. by rewrite E7, G4. }
    split.
    { intros o n Hlt Hn Hd.
      rewrite (getattr_objs o n s2) by done. by apply Hattr. }
    intros f Hf. rewrite E8, G1; [done|]. by rewrite G4.
Qed.

Lemma find_or_create_valid id s :
  session_inv s →
  ((find_or_create id s).1 < length (objs (find_or_create id s).2))%nat.
Proof.
  intros Hinv. unfold find_or_create. destruct (orders s !! id) as [o|] eqn:Ho.
  - by eapply inv_orders.
  - cbn [new_object fst snd]. rewrite setattr_length. simpl.
    rewrite length_app. simpl. lia.
Qed.

(** X9: in a reachable session an open-order push that raises (a field that
    does not decode, an unsupported section) has resolved no future, retired
    no pending entry and fired no notification, but it is not undone: the
    order record exists under the id, synthesized if it was unknown, and
    holds the push's positional fields. *)
Theorem failed_open_order_push_is_partial
    (p : open_order_push) (s : session) (m : IncomingMessage) (e : exn) :
  reachable s →
  (_handle_open_order p (s, m)).1 = inl e →
  futs (_handle_open_order p (s, m)).2.1 = futs s
  ∧ submitted_future (_handle_open_order p (s, m)).2.1 = submitted_future s
  ∧ updated_log (_handle_open_order p (s, m)).2.1 = updated_log s
  ∧ ∃ order,
      orders (_handle_open_order p (s, m)).2.1 !! oo_order_id p = Some order
      ∧ (orders s !! oo_order_id p = None → order = length (objs s))
      ∧ (∀ n v, (n, v) ∈ open_order_assignments p →
           getattr order n (_handle_open_order p (s, m)).2.1 = v).
Proof.
  intros Hreach Hraise. apply reachable_inv in Hreach as Hinv.
  destruct (handle_open_order_cases p s m) as (s2 & Hfr & Hcase).
  destruct (find_or_create_rest (oo_order_id p) s)
    as (F1 & F2 & F3 & F4 & F5 & F6 & F7 & F8 & F9 & F10 & F11 & F12).
  pose proof (find_or_create_valid (oo_order_id p) s Hinv) as Hvalid.
  assert (session_inv s2) as Hinv2.
  { eapply session_inv_frame; [exact Hfr|].
    by apply session_inv_setattrs, session_inv_find_or_create. }
  destruct Hfr as [G1 G2 G3 G4 G5 G6 G7 G8 G9 G10].
  rewrite setattrs_futs, F1 in G1. rewrite setattrs_orders in G2.
  rewrite setattrs_submitted_future, F3 in G4.
  rewrite setattrs_updated_log, F6 in G7.
  destruct Hcase as [[Hs' _]|[Hr _]].
  - rewrite Hs', G1, G4, G7, G2.
    split; [done|]. split; [done|]. split; [done|].
    exists (find_or_create (oo_order_id p) s).1.
    split; [done|]. split; [done|].
    intros n v Hin. rewrite G10 by (by eapply assigned_not_decoded).
    by apply getattr_setattrs_in; [apply open_order_names_nodup | |].
  - destruct (finish_result_ok (oo_order_id p)
                (find_or_create (oo_order_id p) s).1 s2 Hinv2) as [Hok _].
    congruence.
Qed.

(** X10: in a reachable session an open-order push that returns normally
    has retired the pending entry of its id, has resolved the future that
    was pending there (if any) with the order and changed no other future,
    and has fired exactly one notification, for that order. *)
Theorem completed_open_order_push
    (p : open_order_push) (s : session) (m : IncomingMessage) :
  reachable s →
  (_handle_open_order p (s, m)).1 = inr tt →
  ∃ order,
    orders (_handle_open_order p (s, m)).2.1 !! oo_order_id p = Some order
    ∧ updated_log (_handle_open_order p (s, m)).2.1
      = (updated_log s ++ [order])%list
    ∧ submitted_future (_handle_open_order p (s, m)).2.1
      = delete (oo_order_id p) (submitted_future s)
    ∧ (∀ f, submitted_future s !! oo_order_id p = Some f →
         futs (_handle_open_order p (s, m)).2.1
         = <[f := Result (ROrder order)]> (futs s))
    ∧ (submitted_future s !! oo_order_id p = None →
         futs (_handle_open_order p (s, m)).2.1 = futs s)
    ∧ (∀ n v, (n, v) ∈ open_order_assignments p →
         getattr order n (_handle_open_order p (s, m)).2.1 = v).
Proof.
  intros Hreach Hdone. apply reachable_inv in Hreach as Hinv.
  destruct (handle_open_order_cases p s m) as (s2 & Hfr & Hcase).
  destruct (find_or_create_rest (oo_order_id p) s)
    as (F1 & F2 & F3 & F4 & F5 & F6 & F7 & F8 & F9 & F10 & F11 & F12).
  pose proof (find_or_create_valid (oo_order_id p) s Hinv) as Hvalid.
  assert (session_inv s2) as Hinv2.
  { eapply session_inv_frame; [exact Hfr|].
    by apply session_inv_setattrs, session_inv_find_or_create. }
  destruct Hfr as [G1 G2 G3 G4 G5 G6 G7 G8 G9 G10].
  rewrite setattrs_futs, F1 in G1. rewrite setattrs_orders in G2.
  rewrite setattrs_submitted_future, F3 in G4.
  rewrite setattrs_updated_log, F6 in G7.
  destruct Hcase as [[_ (e & He & _)]|[_ Hs']]; [congruence|].
  set (o := (find_or_create (oo_order_id p) s).1) in *.
  assert (∀ n v, (n, v) ∈ open_order_assignments p → getattr o n s2 = v) as Hpos.
  { intros n v Hin. rewrite G10 by (by eapply assigned_not_decoded).
    by apply getattr_setattrs_in; [apply open_order_names_nodup | |]. }
  exists o. rewrite Hs'. unfold finish_result.
  destruct (submitted_future s2 !! oo_order_id p) as [f|] eqn:Hf.
  - pose proof (inv_pending s2 Hinv2 _ _ Hf) as Hp.
    rewrite (resolve_submitted_pending _ o _ _ Hf Hp). cbn [fst snd].
    rewrite G4 in Hf.
    split; [by rewrite fire_updated_orders, retire_orders, G2|].
    split.
    { rewrite (proj1 (fire_updated_rest _ _)).
      change (updated_log (retire (oo_order_id p) f (Result (ROrder o)) s2))
        with (updated_log s2).
      by rewrite G7. }
    split; [by rewrite fire_updated_submitted_future, retire_submitted_future, G4|].
    split.
    { intros f' Hf'. rewrite fire_updated_futs, retire_futs, G1. congruence. }
    split; [congruence|].
    intros n v Hin. rewrite getattr_fire_updated, getattr_retire. by apply Hpos.
  - rewrite (resolve_submitted_none _ o _ Hf). cbn [fst snd].
    rewrite G4 in Hf.
    split; [by rewrite fire_updated_orders, G2|].
    split; [by rewrite (proj1 (fire_updated_rest _ _)), G7|].
    split; [by rewrite fire_updated_submitted_future, G4, delete_id|].
    split; [congruence|].
    split; [intros _; by rewrite fire_updated_futs|].
    intros n v Hin. rewrite getattr_fire_updated. by apply Hpos.
Qed.

End OpenOrderPush.

(** ** Nothing is forgotten *)

Section Growth.
Context {env : Environment}.

Lemma extends_refl s : extends s s.
Proof. by repeat split. Qed.

Lemma extends_trans s1 s2 s3 : extends s1 s2 → extends s2 s3 → extends s1 s3.
Proof.
  intros (A1 & A2 & A3) (B1 & B2 & B3). repeat split; [|lia|lia].
  intros k Hk. by apply B1, A1.
Qed.

Lemma extends_same s s' :
  orders s' = orders s →
  (length (objs s) ≤ length (objs s'))%nat →
  (length (futs s) ≤ length (futs s'))%nat →
  extends s s'.
Proof. intros Ho Hl Hf. repeat split; [|done|done]. by rewrite Ho. Qed.

Ltac same_orders :=
  apply extends_same; rewrite ?length_insert, ?length_app;
  cbn -[insert]; rewrite ?length_insert, ?length_app; simpl;
  first [done | lia].

Lemma extends_setattrs o l s : extends s (setattrs o l s).
Proof.
  apply extends_same.
  - apply setattrs_orders.
  - by rewrite setattrs_length.
  - by rewrite setattrs_futs.
Qed.

Lemma extends_assign_order_id order s : extends s (assign_order_id order s).
Proof.
  destruct (assign_order_id_rest order s) as (Hf & Ho & _).
  apply extends_same; [done | by rewrite assign_order_id_length | by rewrite Hf].
Qed.

Lemma extends_place_order order s : extends s (place_order order s).2.
Proof.
  eapply extends_trans; [apply (extends_assign_order_id order)|].
  destruct (as_key (getattr order "order_id" (assign_order_id order s)))
    as [k|] eqn:Hk.
  - rewrite (place_order_run order s k Hk). cbn [snd].
    repeat split.
    + intros k' Hk'. simpl. destruct (decide (k = k')) as [->|Hne].
      * by rewrite lookup_insert_eq.
      * by rewrite lookup_insert_ne.
    + done.
    + simpl. rewrite length_app. lia.
  - rewrite (place_order_type_error order s Hk). apply extends_refl.
Qed.

Lemma extends_composed o l s : extends s (setattrs o l (new_object Order_init s).2).
Proof.
  eapply extends_trans; [|apply extends_setattrs].
  same_orders.
Qed.

Lemma extends_wrap_immediate_future o s : extends s (wrap_immediate_future o s).2.
Proof.
  same_orders.
Qed.

Lemma extends_resolve_submitted id o s : extends s (resolve_submitted id o s).2.
Proof.
  unfold resolve_submitted.
  destruct (submitted_future s !! id) as [f|]; [|apply extends_refl].
  unfold set_result. simpl. destruct (futs s !! f) as [[]|]; same_orders.
Qed.

Lemma extends_fire_updated o s : extends s (fire_updated o s).
Proof. same_orders. Qed.

Lemma extends_finish_result id o s : extends s (finish_result id o s).2.
Proof.
  unfold finish_result.
  pose proof (extends_resolve_submitted id o s) as H.
  destruct (resolve_submitted id o s) as [[e|[]] s1]; cbn [fst snd] in *;
    [done|].
  eapply extends_trans; [exact H | apply extends_fire_updated].
Qed.

Lemma extends_find_or_create id s : extends s (find_or_create id s).2.
Proof.
  destruct (find_or_create_rest id s)
    as (F1 & _ & _ & _ & _ & _ & _ & F8 & F9 & _ & F11 & _).
  repeat split; [|done|by rewrite F1].
  intros k Hk. destruct (decide (k = id)) as [->|Hne].
  - by rewrite F8.
  - by rewrite F9.
Qed.

Lemma extends_handle_open_order p s m :
  extends s (_handle_open_order p (s, m)).2.1.
Proof.
  destruct (handle_open_order_cases p s m) as (s2 & Hfr & Hcase).
  assert (extends s s2) as Hs2.
  { eapply extends_trans; [apply (extends_find_or_create (oo_order_id p))|].
    eapply extends_trans; [apply extends_setattrs|].
    destruct Hfr as [G1 G2 _ _ _ _ _ _ G9 _].
    apply extends_same; [done | by rewrite G9 | by rewrite G1]. }
  destruct Hcase as [[-> _]|[_ ->]]; [done|].
  eapply extends_trans; [exact Hs2 | apply extends_finish_result].
Qed.

Lemma extends_run_op a s : extends s (run_op a s).
Proof.
  destruct a; cbn [run_op].
  - same_orders.
  - destruct (setattr_rest o name v s) as (Hf & Ho & _).
    apply extends_same; [done | by rewrite setattr_length | by rewrite Hf].
  - apply extends_place_order.
  - rewrite create_market_order_eq. cbv zeta.
    destruct place; cbn [snd].
    + eapply extends_trans; [apply extends_composed | apply extends_place_order].
    + eapply extends_trans;
        [apply extends_composed | apply extends_wrap_immediate_future].
  - rewrite create_limit_order_eq. cbv zeta.
    destruct place; cbn [snd].
    + eapply extends_trans; [apply extends_composed | apply extends_place_order].
    + eapply extends_trans;
        [apply extends_composed | apply extends_wrap_immediate_future].
  - unfold get_open_orders. destruct (open_orders_future s); simpl.
    + same_orders.
    + same_orders.
  - unfold _handle_open_order_end.
    destruct (open_orders_future s) as [f|]; [|apply extends_refl].
    unfold set_result. simpl. destruct (futs s !! f) as [[]|]; same_orders.
  - destruct (orders s !! order_id) as [o|] eqn:Ho.
    + rewrite (handle_order_status_found _ _ _ _ Ho).
      eapply extends_trans; [apply (extends_setattrs o (status_assignments p))|].
      eapply extends_trans; [apply (extends_fire_updated o)|].
      apply extends_resolve_submitted.
    + rewrite (handle_order_status_unknown _ _ _ Ho). apply extends_refl.
  - apply extends_handle_open_order.
  - same_orders.
  - unfold _handle_err_msg, set_exception.
    destruct (submitted_future s !! request_id) as [f|]; [|same_orders].
    simpl. destruct (futs s !! f) as [[]|]; same_orders.
Qed.

Lemma run_ops_snoc l a s : run_ops (l ++ [a]) s = run_op a (run_ops l s).
Proof. unfold run_ops. by rewrite fold_left_app. Qed.

Lemma run_ops_cons a l s : run_ops (a :: l) s = run_ops l (run_op a s).
Proof. reflexivity. Qed.

Lemma reachable_step a s : reachable s → reachable (run_op a s).
Proof. intros [l ->]. exists (l ++ [a])%list. by rewrite run_ops_snoc. Qed.

(** X11: the mixin never forgets an order and never deallocates: whatever
    calls and pushes follow, in whatever order and with whatever outcome,
    an id that [get_order] resolves keeps resolving, and the object heap and
    the future heap only grow. *)
Theorem orders_are_never_forgotten (l : list op) (s : session) :
  (∀ k, is_Some (get_order k s) → is_Some (get_order k (run_ops l s)))
  ∧ (length (objs s) ≤ length (objs (run_ops l s)))%nat
  ∧ (length (futs s) ≤ length (futs (run_ops l s)))%nat.
Proof.
  change (extends s (run_ops l s)).
  revert s. induction l as [|a l IH]; intros s; [apply extends_refl|].
  rewrite run_ops_cons.
  eapply extends_trans; [apply extends_run_op | apply IH].
Qed.

Lemma handle_open_order_other_ids p s m k :
  k ≠ oo_order_id p →
  submitted_future (_handle_open_order p (s, m)).2.1 !! k
  = submitted_future s !! k.
Proof.
  intros Hne.
  destruct (handle_open_order_cases p s m) as (s2 & Hfr & Hcase).
  pose proof (fr_submitted_future _ _ _ Hfr) as G.
  rewrite setattrs_submitted_future in G.
  destruct (find_or_create_rest (oo_order_id p) s) as (_ & _ & F3 & _).
  rewrite F3 in G.
  destruct Hcase as [[-> _]|[_ ->]]; [by rewrite G|].
  destruct (finish_result_frame (oo_order_id p)
              (find_or_create (oo_order_id p) s).1 s2)
    as (_ & _ & _ & _ & _ & _ & E7 & _).
  by rewrite E7, G.
Qed.

Lemma push_keeps_other_ids a s k :
  is_push a = true → addressed_id a ≠ Some k →
  submitted_future (run_op a s) !! k = submitted_future s !! k.
Proof.
  intros Hpush Haddr. destruct a; try discriminate; cbn [run_op].
  - unfold _handle_open_order_end.
    destruct (open_orders_future s) as [f|]; [|done].
    unfold set_result. by destruct (futs s !! f) as [[]|].
  - assert (k ≠ order_id) as Hne by (intros ->; by apply Haddr).
    destruct (orders s !! order_id) as [o|] eqn:Ho.
    + rewrite (handle_order_status_found _ _ _ _ Ho).
      destruct (resolve_submitted_frame order_id o
                  (fire_updated o (setattrs o (status_assignments p) s)))
        as (_ & _ & _ & _ & _ & _ & _ & E8 & _).
      rewrite E8 by done.
      by rewrite fire_updated_submitted_future, setattrs_submitted_future.
    + by rewrite (handle_order_status_unknown _ _ _ Ho).
  - assert (k ≠ oo_order_id p) as Hne by (intros ->; by apply Haddr).
    by apply handle_open_order_other_ids.
  - done.
  - assert (k ≠ request_id) as Hne by (intros ->; by apply Haddr).
    by apply handle_err_msg_frame.
Qed.

(** X12: a pending placement is not disturbed by traffic for other ids: in
    a reachable session, through any sequence of pushes none of which
    carries the id [k], the future registered under [k] stays registered
    under [k] and stays pending. *)
Theorem pushes_for_other_ids_keep_the_future_pending
    (l : list op) (s : session) (k : Z) (f : loc) :
  reachable s →
  Forall (λ a, is_push a = true ∧ addressed_id a ≠ Some k) l →
  submitted_future s !! k = Some f →
  submitted_future (run_ops l s) !! k = Some f
  ∧ futs (run_ops l s) !! f = Some Pending.
Proof.
  intros Hreach Hall Hf. revert s Hreach Hf.
  induction Hall as [|a l [Hpush Haddr] _ IH]; intros s Hreach Hf.
  - split; [done|]. apply reachable_inv in Hreach.
    by eapply inv_pending.
  - rewrite run_ops_cons. apply IH; [by apply reachable_step|].
    by rewrite push_keeps_other_ids.
Qed.

End Growth.

(** ** Composing and placing orders *)

Section Composition.
Context {env : Environment}.

Ltac by_names := apply (bool_decide_unpack _); vm_compute; exact I.
Ltac by_position :=
  repeat first [apply list_elem_of_here | apply list_elem_of_further].

Lemma getattr_place_order o n order s :
  o ≠ order ∨ n ≠ "order_id" →
  getattr o n (place_order order s).2 = getattr o n s.
Proof.
  intros Hon.
  assert (getattr o n (assign_order_id order s) = getattr o n s) as Ha.
  { unfold assign_order_id. destruct (negb _); [|done].
    destruct Hon as [Hne|Hne].
    - by apply getattr_setattr_other.
    - by apply getattr_setattr_ne. }
  destruct (as_key (getattr order "order_id" (assign_order_id order s)))
    as [k|] eqn:Hk.
  - rewrite (place_order_run order s k Hk). cbn [snd].
    by rewrite registered_getattr.
  - by rewrite (place_order_type_error order s Hk).
Qed.

Lemma getattr_wrap_immediate_future o n order s :
  getattr o n (wrap_immediate_future order s).2 = getattr o n s.
Proof. reflexivity. Qed.


(** A field the composition writes is still there when the call returns,
    placed or not. *)
Lemma composed_field n v l place s :
  NoDup l.*1 → (n, v) ∈ l → n ≠ "order_id" →
  getattr (length (objs s)) n
    (if place : bool
     then place_order (length (objs s))
            (setattrs (length (objs s)) l (new_object Order_init s).2)
     else (inr (wrap_immediate_future (length (objs s))
                  (setattrs (length (objs s)) l (new_object Order_init s).2)).1,
           (wrap_immediate_future (length (objs s))
              (setattrs (length (objs s)) l (new_object Order_init s).2)).2)).2
  = v.
Proof.
  intros Hnd Hin Hne.
  assert (getattr (length (objs s)) n
            (setattrs (length (objs s)) l (new_object Order_init s).2) = v) as H.
  { apply getattr_setattrs_in; [done | done |]. rewrite new_object_length. lia. }
  destruct place.
  - rewrite getattr_place_order by (by right). exact H.
  - exact H.
Qed.

(** X13: with no explicit action, the side of a created order is read off
    the sign of the quantity and the order carries the absolute value: a
    positive quantity buys, a negative one sells, and a quantity of zero
    sells zero.  This holds for market and limit orders, placed or not. *)
Theorem order_side_follows_the_sign
    (instrument limit tif : pyval) (z : Z) (place : bool) (s : session) :
  getattr (length (objs s)) "action"
    (create_market_order instrument (VInt z) None tif place s).2
  = (if Z.ltb 0 z then Action_Buy else Action_Sell)
  ∧ getattr (length (objs s)) "total_quantity"
      (create_market_order instrument (VInt z) None tif place s).2
    = VInt (Z.abs z)
  ∧ getattr (length (objs s)) "action"
      (create_limit_order instrument (VInt z) limit None tif place s).2
    = (if Z.ltb 0 z then Action_Buy else Action_Sell)
  ∧ getattr (length (objs s)) "total_quantity"
      (create_limit_order instrument (VInt z) limit None tif place s).2
    = VInt (Z.abs z).
Proof.
  rewrite create_market_order_eq, create_limit_order_eq. cbv zeta.
  repeat split; (apply composed_field; [by_names | by_position | discriminate]).
Qed.

(** X14: with an explicit action the quantity is stored exactly as given:
    no absolute value is taken and the sign is not looked at, so a negative
    quantity stays negative under the action the caller chose.  The other
    arguments land in their fields, and a market order gets no limit price
    beyond what the constructor left. *)
Theorem explicit_action_keeps_the_quantity
    (instrument quantity limit action tif : pyval) (place : bool) (s : session) :
  getattr (length (objs s)) "action"
    (create_market_order instrument quantity (Some action) tif place s).2
  = action
  ∧ getattr (length (objs s)) "total_quantity"
      (create_market_order instrument quantity (Some action) tif place s).2
    = quantity
  ∧ getattr (length (objs s)) "order_type"
      (create_market_order instrument quantity (Some action) tif place s).2
    = OrderType_Market
  ∧ getattr (length (objs s)) "limit_price"
      (create_market_order instrument quantity (Some action) tif place s).2
    = default VNone (Order_init !! "limit_price")
  ∧ getattr (length (objs s)) "action"
      (create_limit_order instrument quantity limit (Some action) tif place s).2
    = action
  ∧ getattr (length (objs s)) "total_quantity"
      (create_limit_order instrument quantity limit (Some action) tif place s).2
    = quantity
  ∧ getattr (length (objs s)) "order_type"
      (create_limit_order instrument quantity limit (Some action) tif place s).2
    = OrderType_Limit
  ∧ getattr (length (objs s)) "limit_price"
      (create_limit_order instrument quantity limit (Some action) tif place s).2
    = limit
  ∧ getattr (length (objs s)) "instrument"
      (create_limit_order instrument quantity limit (Some action) tif place s).2
    = instrument
  ∧ getattr (length (objs s)) "time_in_force"
      (create_limit_order instrument quantity limit (Some action) tif place s).2
    = tif.
Proof.
  rewrite create_market_order_eq, create_limit_order_eq. cbv zeta.
  split; [apply composed_field; [by_names | by_position | discriminate]|].
  split; [apply composed_field; [by_names | by_position | discriminate]|].
  split; [apply composed_field; [by_names | by_position | discriminate]|].
  split.
  { destruct place.
    - rewrite getattr_place_order by (right; discriminate).
      rewrite getattr_setattrs_notin by by_names. apply getattr_new_object.
    - cbn [snd]. rewrite getattr_wrap_immediate_future.
      rewrite getattr_setattrs_notin by by_names. apply getattr_new_object. }
  repeat split; (apply composed_field; [by_names | by_position | discriminate]).
Qed.


End Composition.

(** ** The further properties at concrete sessions *)

Lemma open_order_end_closes_the_round_witness :
  futs (_handle_open_order_end (get_open_orders init_session).2).2 !! 0%nat
  = Some (Result ROrdersView).
Proof.
  destruct (@open_order_end_closes_the_round sample_env init_session
              (get_open_orders init_session).2 0%nat) as (_ & _ & H & _).
  - by exists [].
  - reflexivity.
  - exact H.
Defined.

Lemma reachable_sessions_are_consistent_witness :
  futs sample_placed !! 0%nat = Some Pending ∧ is_Some (orders sample_placed !! 1).
Proof.
  destruct (@reachable_sessions_are_consistent sample_env sample_placed)
    as (_ & H & _).
  - exists [CallCreateLimitOrder VNone (VInt 100) (VFloat 13.37%float) None
              TimeInForce_GoodTillCancel true].
    reflexivity.
  - apply (H 1 0%nat). vm_compute. reflexivity.
Defined.

Lemma delivery_never_resolves_twice_witness :
  (_handle_order_status 1 sample_status sample_placed).1 = inr tt
  ∧ (_handle_err_msg 1 201 "Order rejected" sample_placed).1 = inr tt.
Proof.
  destruct (@delivery_never_resolves_twice sample_env sample_placed)
    as (H1 & H2 & _).
  - exists [CallCreateLimitOrder VNone (VInt 100) (VFloat 13.37%float) None
              TimeInForce_GoodTillCancel true].
    reflexivity.
  - split; [apply H1 | apply H2].
Defined.

Lemma status_push_frame_witness :
  updated_log (_handle_order_status 1 sample_status sample_placed).2
  = (updated_log sample_placed ++ [0%nat])%list
  ∧ sent (_handle_order_status 1 sample_status sample_placed).2
    = sent sample_placed.
Proof.
  destruct (status_push_frame 1 sample_status sample_placed 0%nat)
    as (H1 & H2 & _).
  - vm_compute. reflexivity.
  - split; [exact H1 | exact H2].
Defined.

Lemma place_order_frame_witness :
  sent (place_order 0 two_new_orders).2
  = (sent two_new_orders ++ [OutMsg PLACE_ORDER [VInt 45; VRef 0%nat]])%list
  ∧ get_order 1 (place_order 0 two_new_orders).2 = Some 0%nat.
Proof.
  destruct (place_order_frame 0%nat two_new_orders 1) as (H1 & _ & _ & _ & H2 & _).
  - vm_compute. reflexivity.
  - split; [exact H1 | exact H2].
Defined.

Lemma failed_open_order_push_is_partial_witness :
  futs (@_handle_open_order sample_env (sample_push 5)
          (init_session, sample_message 36 "1")).2.1 = futs init_session
  ∧ ∃ order,
      orders (@_handle_open_order sample_env (sample_push 5)
                (init_session, sample_message 36 "1")).2.1 !! 5 = Some order
      ∧ getattr order "perm_id"
          (@_handle_open_order sample_env (sample_push 5)
             (init_session, sample_message 36 "1")).2.1 = VInt 99.
Proof.
  destruct (@failed_open_order_push_is_partial sample_env (sample_push 5)
              init_session (sample_message 36 "1")
              (UnsupportedFeature "order combo legs"))
    as (H1 & _ & _ & order & H2 & _ & H3).
  - by exists [].
  - vm_compute. reflexivity.
  - split; [exact H1|]. exists order. split; [exact H2|].
    apply H3. vm_compute.
    repeat first [apply list_elem_of_here | apply list_elem_of_further].
Defined.

Lemma completed_open_order_push_witness :
  ∃ order,
    updated_log (@_handle_open_order sample_env (sample_push 1)
                   (sample_placed, sample_message 200 "1")).2.1
    = (updated_log sample_placed ++ [order])%list
    ∧ futs (@_handle_open_order sample_env (sample_push 1)
              (sample_placed, sample_message 200 "1")).2.1
      = <[0%nat := Result (ROrder order)]> (futs sample_placed).
Proof.
  destruct (@completed_open_order_push sample_env (sample_push 1)
              sample_placed (sample_message 200 "1"))
    as (order & _ & H1 & _ & H2 & _).
  - exists [CallCreateLimitOrder VNone (VInt 100) (VFloat 13.37%float) None
              TimeInForce_GoodTillCancel true].
    reflexivity.
  - vm_compute. reflexivity.
  - exists order. split; [exact H1|]. apply H2. vm_compute. reflexivity.
Defined.

Lemma pushes_for_other_ids_keep_the_future_pending_witness :
  submitted_future
    (@run_ops sample_env
       [PushOrderStatus 2 sample_status; PushErrMsg 3 201 "No such order";
        PushOpenOrder (sample_push 5) (sample_message 200 "1");
        PushOpenOrderEnd; PushNextValidId 9]
       sample_placed) !! 1 = Some 0%nat
  ∧ futs
      (@run_ops sample_env
         [PushOrderStatus 2 sample_status; PushErrMsg 3 201 "No such order";
          PushOpenOrder (sample_push 5) (sample_message 200 "1");
          PushOpenOrderEnd; PushNextValidId 9]
         sample_placed) !! 0%nat = Some Pending.
Proof.
  apply (@pushes_for_other_ids_keep_the_future_pending sample_env).
  - exists [CallCreateLimitOrder VNone (VInt 100) (VFloat 13.37%float) None
              TimeInForce_GoodTillCancel true].
    reflexivity.
  - repeat (apply Forall_cons; split; [split; [reflexivity | discriminate]|]).
    apply Forall_nil. exact I.
  - vm_compute. reflexivity.
Defined.
